(** * Reasoning parsers of the Kimi tag family

    A shallow embedding of [vllm/reasoning/kimi_reasoning_parser.py],
    [kimi2_reasoning_parser.py] and [kimi3_reasoning_parser.py], and the
    properties of the batch splitters and of the streaming state machine.

    A Python [str] is a sequence of Unicode code points, so it is modelled
    as a list of code points ([N]); lengths and indices count code points,
    exactly as [len], slicing and [str.find] do. *)

From stdpp Require Import base numbers list option gmap.

Abbreviation str := (list N).

(** ** Exceptions *)

Inductive exception := ValueError | IndexError.

Inductive py (A : Type) : Type :=
| Return (a : A)
| Raise (e : exception).
Arguments Return {A} a.
Arguments Raise {A} e.

Definition py_bind {A B} (m : py A) (k : A → py B) : py B :=
  match m with
  | Return a => k a
  | Raise e => Raise e
  end.

Notation "'let!' x ':=' m 'in' k" := (py_bind m (fun x => k))
  (at level 10, x pattern, m at level 100, k at level 200, only parsing).

(** ** Python string primitives used by the parsers *)
Module PyStr.

(** [s.startswith(p)] *)
Fixpoint startswith (s p : str) : bool :=
  match p, s with
  | [], _ => true
  | _ :: _, [] => false
  | a :: p', b :: s' => (a =? b)%N && startswith s' p'
  end.

(** [s.endswith(p)] *)
Definition endswith (s p : str) : bool :=
  startswith (reverse s) (reverse p).

(** First offset at which [sub] occurs in [s], scanning from the left. *)
Fixpoint find_opt (s sub : str) : option nat :=
  if startswith s sub then Some 0
  else match s with
       | [] => None
       | _ :: s' => S <$> find_opt s' sub
       end.

(** [s.find(sub)]: the lowest index, or [-1]. *)
Definition find (s sub : str) : Z :=
  match find_opt s sub with
  | Some i => Z.of_nat i
  | None => (-1)%Z
  end.

(** [sub in s] *)
Definition contains (sub s : str) : bool :=
  match find_opt s sub with
  | Some _ => true
  | None => false
  end.

(** A slice bound, as Python normalises it: a negative bound counts from
    the end, and every bound is clamped to [0 .. len(s)]. *)
Definition slice_index (s : str) (i : Z) : nat :=
  Z.to_nat (if (i <? 0)%Z
            then Z.max 0 (Z.of_nat (length s) + i)
            else Z.min i (Z.of_nat (length s))).

(** [s[i:]] *)
Definition slice_from (s : str) (i : Z) : str := drop (slice_index s i) s.

(** [s[:i]] *)
Definition slice_to (s : str) (i : Z) : str := take (slice_index s i) s.

(** [s[i:j]]: empty when the upper bound is not above the lower one. *)
Definition slice (s : str) (i j : Z) : str :=
  take (slice_index s j - slice_index s i) (drop (slice_index s i) s).

(** [s.partition(sep)]: split at the first occurrence of [sep]; without
    one, the whole string and two empty strings.  An empty separator is
    a ValueError. *)
Definition partition (s sep : str) : py (str * str * str) :=
  match sep with
  | [] => Raise ValueError
  | _ :: _ =>
      match find_opt s sep with
      | Some i => Return (take i s, sep, drop (i + length sep) s)
      | None => Return (s, [], [])
      end
  end.

(** [s or None]: the empty string is falsy. *)
Definition or_none (s : str) : option str :=
  match s with
  | [] => None
  | _ :: _ => Some s
  end.

(** [range(lo, hi)] *)
Definition range (lo hi : Z) : list Z :=
  (fun k => (lo + Z.of_nat k)%Z) <$> seq 0 (Z.to_nat (hi - lo)).

End PyStr.

(** [l[i]] on a list, for a non-negative index. *)
Definition getitem {A} (l : list A) (i : nat) : py A :=
  match l !! i with
  | Some a => Return a
  | None => Raise IndexError
  end.

(** [a, b = t]: unpacking a tuple into two names. *)
Definition unpack2 {A} (t : list A) : py (A * A) :=
  match t with
  | [a; b] => Return (a, b)
  | _ => Raise ValueError
  end.

(** ** The wire object of a streaming step *)

Record DeltaMessage := {
  reasoning_content : option str;
  content : option str
}.

(** ** The tokenizer reference of a constructor

    The tokenizer class and the base class [ReasoningParser] are not part
    of these three files.  A constructor receives [None] or a tokenizer
    object; [truth] is Python's truth value of such an object, and
    [super_init] is the base-class constructor, giving the value of the
    attribute [self.model_tokenizer] it leaves behind (or an exception). *)
Definition py_truth {Tokenizer} (truth : Tokenizer → bool)
    (o : option Tokenizer) : bool :=
  match o with
  | Some t => truth t
  | None => false
  end.

(** The two sentinel tags: '◁think▷' and '◁/think▷'. *)
Definition tag_open : str := [9665; 116; 104; 105; 110; 107; 9655]%N.
Definition tag_close : str := [9665; 47; 116; 104; 105; 110; 107; 9655]%N.

(** ** kimi_reasoning_parser.py *)
Module Kimi.

Definition start_token : str := tag_open.
Definition end_token : str := tag_close.

Record parser {Tokenizer : Type} := { model_tokenizer : option Tokenizer }.
Arguments parser : clear implicits.

Definition __init__ {Tokenizer} (truth : Tokenizer → bool)
    (super_init : option Tokenizer → py (option Tokenizer))
    (tokenizer : option Tokenizer) : py (parser Tokenizer) :=
  let! mt := super_init tokenizer in
  if negb (py_truth truth mt) then Raise ValueError
  else Return {| model_tokenizer := mt |}.

Definition is_reasoning_end (input_ids : list Z) : bool := false.

Definition extract_content_ids (input_ids : list Z) : list Z := input_ids.

(** The streaming call keeps no state: it looks for the tags in the text
    delivered before ([previous_text]) and in the new text
    ([delta_text]). *)
Definition extract_reasoning_content_streaming
    (previous_text current_text delta_text : str)
    (previous_token_ids current_token_ids delta_token_ids : list Z)
    : option DeltaMessage :=
  if PyStr.contains start_token previous_text then
    if PyStr.contains end_token delta_text then
      let end_index := PyStr.find delta_text end_token in
      let reasoning := PyStr.slice_to delta_text end_index in
      let content :=
        PyStr.slice_from delta_text
          (end_index + Z.of_nat (length end_token)) in
      Some {| reasoning_content := Some reasoning;
              content := PyStr.or_none content |}
    else if PyStr.contains end_token previous_text then
      Some {| reasoning_content := None; content := Some delta_text |}
    else
      Some {| reasoning_content := Some delta_text; content := None |}
  else if PyStr.contains start_token delta_text then
    if PyStr.contains end_token delta_text then
      let start_index := PyStr.find delta_text start_token in
      let end_index := PyStr.find delta_text end_token in
      let reasoning :=
        PyStr.slice delta_text
          (start_index + Z.of_nat (length start_token)) end_index in
      let content :=
        PyStr.slice_from delta_text
          (end_index + Z.of_nat (length end_token)) in
      Some {| reasoning_content := Some reasoning;
              content := PyStr.or_none content |}
    else
      Some {| reasoning_content := Some delta_text; content := None |}
  else
    if PyStr.contains end_token delta_text then
      let end_index := PyStr.find delta_text end_token in
      let reasoning := PyStr.slice_to delta_text end_index in
      let content :=
        PyStr.slice_from delta_text
          (end_index + Z.of_nat (length end_token)) in
      Some {| reasoning_content := Some reasoning;
              content := PyStr.or_none content |}
    else if PyStr.contains end_token previous_text then
      Some {| reasoning_content := None; content := Some delta_text |}
    else
      Some {| reasoning_content := Some delta_text; content := None |}.

Definition extract_reasoning_content {Request : Type}
    (model_output : str) (request : Request)
    : py (option str * option str) :=
  if negb (PyStr.startswith model_output start_token) then
    Return (None, Some model_output)
  else
    let model_output_without_start :=
      PyStr.slice_from model_output (Z.of_nat (length start_token)) in
    if negb (PyStr.contains end_token model_output_without_start) then
      Return (Some model_output_without_start, None)
    else
      let! (reasoning_content, _, content) :=
        PyStr.partition model_output_without_start end_token in
      let final_content := PyStr.or_none content in
      Return (Some reasoning_content, final_content).

End Kimi.

(** ** kimi2_reasoning_parser.py *)
Module Kimi2.

(** *** The fragment of [re] the parser uses

    A pattern is a sequence of literals and of two kinds of capture
    group, both around "any run of characters": the lazy one (dot, star,
    question mark) and the greedy one (dot, star).  Matching is the
    backtracking search of [re]: a lazy group tries the shortest text
    first and grows, a greedy group tries the longest text first and
    shrinks, and the first success in that order is the match. *)
Inductive node :=
| Literal (s : str)
| GroupAnyLazy
| GroupAnyGreedy.

Record pattern := { nodes : list node; dotall : bool }.

(** [re.escape(s)]: a pattern matching [s] literally. *)
Definition re_escape (s : str) : list node := [Literal s].

(** Whether [.] matches the code point: anything but a newline, and the
    newline too under [re.DOTALL]. *)
Definition dot_matches (flag : bool) (c : N) : bool :=
  flag || negb (c =? 10)%N.

(** The lazy group followed by the rest of the pattern [k]: try the
    rest with the group as it stands ([g]), and on failure let the group
    take one more character. *)
Fixpoint lazy_any (flag : bool) (k : str → option (list str * str))
    (g s : str) : option (list str * str) :=
  match k s with
  | Some (gs, rest) => Some (g :: gs, rest)
  | None =>
      match s with
      | c :: s' =>
          if dot_matches flag c then lazy_any flag k (g ++ [c]) s' else None
      | [] => None
      end
  end.

(** The greedy group followed by the rest of the pattern [k]: let the
    group take one more character first, and only when that fails try
    the rest with the group as it stands. *)
Fixpoint greedy_any (flag : bool) (k : str → option (list str * str))
    (g s : str) : option (list str * str) :=
  let stop :=
    match k s with
    | Some (gs, rest) => Some (g :: gs, rest)
    | None => None
    end in
  match s with
  | c :: s' =>
      if dot_matches flag c then
        match greedy_any flag k (g ++ [c]) s' with
        | Some r => Some r
        | None => stop
        end
      else stop
  | [] => stop
  end.

(** Match the nodes at the start of [s]: the captured groups in order,
    and the text left after the match. *)
Fixpoint match_here (flag : bool) (re : list node) (s : str)
    : option (list str * str) :=
  match re with
  | [] => Some ([], s)
  | Literal l :: re' =>
      if PyStr.startswith s l then match_here flag re' (drop (length l) s)
      else None
  | GroupAnyLazy :: re' => lazy_any flag (match_here flag re') [] s
  | GroupAnyGreedy :: re' => greedy_any flag (match_here flag re') [] s
  end.

(** Leftmost match: the text from the position where it starts, its
    groups, and the text after it. *)
Fixpoint search (p : pattern) (s : str) : option (str * list str * str) :=
  match match_here (dotall p) (nodes p) s with
  | Some (gs, rest) => Some (s, gs, rest)
  | None =>
      match s with
      | [] => None
      | _ :: s' => search p s'
      end
  end.

(** [p.findall(s)] for a pattern with several groups: the tuples of
    groups of the successive non-overlapping matches, left to right.  The
    scan resumes where a match ended, one code point further when that
    match was empty; [fuel] bounds the number of matches. *)
Fixpoint findall_fuel (fuel : nat) (p : pattern) (s : str) : list (list str) :=
  match fuel with
  | 0 => []
  | S fuel' =>
      match search p s with
      | None => []
      | Some (from, gs, rest) =>
          gs :: (if decide (length rest < length from)
                 then findall_fuel fuel' p rest
                 else match rest with
                      | [] => []
                      | _ :: rest' => findall_fuel fuel' p rest'
                      end)
      end
  end.

Definition findall (p : pattern) (s : str) : list (list str) :=
  findall_fuel (S (length s)) p s.

(** *** The parser *)

Record parser {Tokenizer : Type} := {
  model_tokenizer : option Tokenizer;
  start_token : str;
  end_token : str;
  reasoning_regex : pattern
}.
Arguments parser : clear implicits.

Definition __init__ {Tokenizer} (truth : Tokenizer → bool)
    (super_init : option Tokenizer → py (option Tokenizer))
    (tokenizer : option Tokenizer) : py (parser Tokenizer) :=
  let! mt := super_init tokenizer in
  if negb (py_truth truth mt) then Raise ValueError
  else
    let start_token := tag_open in
    let end_token := tag_close in
    Return {| model_tokenizer := mt;
              start_token := start_token;
              end_token := end_token;
              reasoning_regex :=
                {| nodes := re_escape start_token ++ [GroupAnyLazy] ++
                            re_escape end_token ++ [GroupAnyGreedy];
                   dotall := true |} |}.

Definition extract_reasoning_content {Tokenizer Request : Type}
    (self : parser Tokenizer) (model_output : str) (request : Request)
    : py (option str * option str) :=
  let re_match := findall (reasoning_regex self) model_output in
  match re_match with
  | [] => Return (None, Some model_output)
  | _ :: _ =>
      let! first := getitem re_match 0 in
      let! (reasoning_content, response_content) := unpack2 first in
      match response_content with
      | [] => Return (Some reasoning_content, None)
      | _ :: _ => Return (Some reasoning_content, Some response_content)
      end
  end.

Definition is_reasoning_end (input_ids : list Z) : bool := false.

Definition extract_content_ids (input_ids : list Z) : list Z := input_ids.

Definition extract_reasoning_content_streaming {Tokenizer : Type}
    (self : parser Tokenizer)
    (previous_text current_text delta_text : str)
    (previous_token_ids current_token_ids delta_token_ids : list Z)
    : option DeltaMessage :=
  if PyStr.contains (start_token self) previous_text then
    if PyStr.contains (end_token self) delta_text then
      let end_index := PyStr.find delta_text (end_token self) in
      let reasoning := PyStr.slice_to delta_text end_index in
      let content :=
        PyStr.slice_from delta_text
          (end_index + Z.of_nat (length (end_token self))) in
      Some {| reasoning_content := Some reasoning;
              content := PyStr.or_none content |}
    else if PyStr.contains (end_token self) previous_text then
      Some {| reasoning_content := None; content := Some delta_text |}
    else
      Some {| reasoning_content := Some delta_text; content := None |}
  else if PyStr.contains (start_token self) delta_text then
    if PyStr.contains (end_token self) delta_text then
      let start_index := PyStr.find delta_text (start_token self) in
      let end_index := PyStr.find delta_text (end_token self) in
      let reasoning :=
        PyStr.slice delta_text
          (start_index + Z.of_nat (length (start_token self))) end_index in
      let content :=
        PyStr.slice_from delta_text
          (end_index + Z.of_nat (length (end_token self))) in
      Some {| reasoning_content := Some reasoning;
              content := PyStr.or_none content |}
    else
      Some {| reasoning_content := Some delta_text; content := None |}
  else
    if PyStr.contains (end_token self) delta_text then
      let end_index := PyStr.find delta_text (end_token self) in
      let reasoning := PyStr.slice_to delta_text end_index in
      let content :=
        PyStr.slice_from delta_text
          (end_index + Z.of_nat (length (end_token self))) in
      Some {| reasoning_content := Some reasoning;
              content := PyStr.or_none content |}
    else if PyStr.contains (end_token self) previous_text then
      Some {| reasoning_content := None; content := Some delta_text |}
    else
      Some {| reasoning_content := Some delta_text; content := None |}.

End Kimi2.

(** ** kimi3_reasoning_parser.py *)
Module Kimi3.

Definition STATE_INITIAL : Z := 0.
Definition STATE_REASONING : Z := 1.
Definition STATE_OUTPUT : Z := 2.

Definition START_TEXT : str := tag_open.
Definition START_TEXT_LENGTH : Z := Z.of_nat (length START_TEXT).
Definition START_PREFIXES : gset str :=
  list_to_set ((fun i => PyStr.slice_to START_TEXT i) <$>
               PyStr.range 0 (Z.of_nat (length START_TEXT) - 1)).

Definition END_TEXT : str := tag_close.
Definition END_TEXT_LENGTH : Z := Z.of_nat (length END_TEXT).
Definition END_PREFIXES : list str :=
  (fun i => PyStr.slice_to END_TEXT i) <$>
  PyStr.range 1 (Z.of_nat (length END_TEXT) - 1).

(** The attributes the class itself owns.  The attribute left by the
    base-class constructor is read by none of its methods. *)
Record parser := {
  _state : Z;
  _delta_accumulator : str
}.

Definition __init__ {Tokenizer}
    (super_init : option Tokenizer → py (option Tokenizer))
    (tokenizer : option Tokenizer) : py parser :=
  let! _ := super_init tokenizer in
  Return {| _state := STATE_INITIAL; _delta_accumulator := [] |}.

Definition extract_reasoning_content {Request : Type}
    (model_output : str) (request : Request)
    : py (option str * option str) :=
  if negb (PyStr.startswith model_output START_TEXT) then
    Return (None, Some model_output)
  else
    let model_output := PyStr.slice_from model_output START_TEXT_LENGTH in
    let reasoning_done_index := PyStr.find model_output END_TEXT in
    if (reasoning_done_index =? -1)%Z then
      Return (Some model_output, None)
    else
      let content_start_index :=
        (reasoning_done_index + END_TEXT_LENGTH)%Z in
      Return
        (PyStr.or_none (PyStr.slice_to model_output reasoning_done_index),
         PyStr.or_none (PyStr.slice_from model_output content_start_index)).

(** One streaming call: the instance after the call and the value
    returned.  The first block either returns early ([inl]) or falls
    through with the instance and the text still to classify ([inr]). *)
Definition extract_reasoning_content_streaming (self : parser)
    (previous_text current_text delta_text : str)
    (previous_token_ids current_token_ids delta_token_ids : list Z)
    : parser * option DeltaMessage :=
  let delta := _delta_accumulator self ++ delta_text in
  let self := {| _state := _state self; _delta_accumulator := [] |} in
  match
    (if (_state self =? STATE_INITIAL)%Z then
       if PyStr.startswith delta START_TEXT then
         inr ({| _state := STATE_REASONING;
                 _delta_accumulator := _delta_accumulator self |},
              PyStr.slice_from delta START_TEXT_LENGTH)
       else if bool_decide (delta ∈ START_PREFIXES) then
         inl ({| _state := _state self; _delta_accumulator := delta |},
              @None DeltaMessage)
       else
         inr ({| _state := STATE_OUTPUT;
                 _delta_accumulator := _delta_accumulator self |}, delta)
     else inr (self, delta))
  with
  | inl ret => ret
  | inr (self, delta) =>
      let reasoning_delta := @None str in
      if (_state self =? STATE_REASONING)%Z then
        let reasoning_done_index := PyStr.find delta END_TEXT in
        if (reasoning_done_index =? -1)%Z then
          match List.find (fun p => PyStr.endswith delta p) END_PREFIXES with
          | Some p =>
              ({| _state := _state self; _delta_accumulator := p |},
               Some {| reasoning_content :=
                         Some (PyStr.slice_to delta (- Z.of_nat (length p)));
                       content := None |})
          | None =>
              (self, Some {| reasoning_content := Some delta;
                             content := None |})
          end
        else
          let self := {| _state := STATE_OUTPUT;
                         _delta_accumulator := _delta_accumulator self |} in
          let reasoning_delta :=
            Some (PyStr.slice_to delta reasoning_done_index) in
          let delta :=
            PyStr.slice_from delta (reasoning_done_index + END_TEXT_LENGTH) in
          (self, Some {| reasoning_content := reasoning_delta;
                         content := PyStr.or_none delta |})
      else
        (self, Some {| reasoning_content := reasoning_delta;
                       content := PyStr.or_none delta |})
  end.

End Kimi3.

(** ** A streaming session

    The caller feeds the chunks in order to one instance; [previous_text]
    is the text delivered so far.  The result is the instance after the
    last chunk and the value returned by each call. *)
Fixpoint feed (self : Kimi3.parser) (previous_text : str) (chunks : list str)
    : Kimi3.parser * list (option DeltaMessage) :=
  match chunks with
  | [] => (self, [])
  | delta_text :: chunks' =>
      let current_text := previous_text ++ delta_text in
      let '(self, out) :=
        Kimi3.extract_reasoning_content_streaming
          self previous_text current_text delta_text [] [] [] in
      let '(self, outs) := feed self current_text chunks' in
      (self, out :: outs)
  end.

(** A streaming session of kimi, which keeps no instance state: each
    call receives the text delivered before and the new chunk. *)
Fixpoint feed_kimi (previous_text : str) (chunks : list str)
    : list (option DeltaMessage) :=
  match chunks with
  | [] => []
  | delta_text :: chunks' =>
      let current_text := previous_text ++ delta_text in
      Kimi.extract_reasoning_content_streaming
        previous_text current_text delta_text [] [] []
      :: feed_kimi current_text chunks'
  end.

(** The text a returned value carries on a channel, absence read as the
    empty string, and the concatenation over a session. *)
Definition fragment (field : DeltaMessage → option str)
    (out : option DeltaMessage) : str :=
  match out with
  | Some m => default [] (field m)
  | None => []
  end.

Definition emitted (field : DeltaMessage → option str)
    (outs : list (option DeltaMessage)) : str :=
  concat (fragment field <$> outs).

(** ** Vocabulary of the statements

    [occurs_at sub s i]: the text [sub] occurs in [s] at offset [i];
    [first_at sub s i]: that is its first occurrence. *)
Definition occurs_at (sub s : str) (i : nat) : Prop :=
  ∃ l r, s = l ++ sub ++ r ∧ length l = i.

Definition first_at (sub s : str) (i : nat) : Prop :=
  occurs_at sub s i ∧ ∀ j, j < i → ¬ occurs_at sub s j.

(** [unsafe_cut st t]: a chunk boundary after the text [t], counted from
    an instance of kimi3 in state [st] with nothing withheld, falls where
    the tables of prefixes have no entry: at the very beginning, right
    after the first six characters of the start tag; or, inside an
    unterminated reasoning span, right after the first seven characters
    of the end tag. *)
Definition unsafe_cut (st : Z) (t : str) : Prop :=
  (st = Kimi3.STATE_INITIAL ∧
   (t = take 6 Kimi3.START_TEXT ∨
    ∃ rest, t = Kimi3.START_TEXT ++ rest ∧
            (∀ i, ¬ occurs_at Kimi3.END_TEXT rest i) ∧
            take 7 Kimi3.END_TEXT `suffix_of` rest)) ∨
  (st = Kimi3.STATE_REASONING ∧
   (∀ i, ¬ occurs_at Kimi3.END_TEXT t i) ∧
   take 7 Kimi3.END_TEXT `suffix_of` t).

(** [conserved self R C T]: the reasoning [R] and the content [C] emitted
    so far, with what the instance [self] still withholds, make up the
    text [T] delivered so far, tags apart. *)
Definition conserved (self : Kimi3.parser) (R C T : str) : Prop :=
  (Kimi3._state self = Kimi3.STATE_INITIAL ∧
   T = Kimi3._delta_accumulator self ∧ R = [] ∧ C = []) ∨
  (Kimi3._state self = Kimi3.STATE_REASONING ∧
   T = Kimi3.START_TEXT ++ R ++ Kimi3._delta_accumulator self ∧ C = []) ∨
  (Kimi3._state self = Kimi3.STATE_OUTPUT ∧
   Kimi3._delta_accumulator self = [] ∧
   ((R = [] ∧ T = C) ∨
    T = Kimi3.START_TEXT ++ R ++ Kimi3.END_TEXT ++ C)).

(** The same test, computed with the string primitives. *)
Definition unsafe_cutb (st : Z) (t : str) : bool :=
  if (st =? Kimi3.STATE_INITIAL)%Z then
    bool_decide (t = take 6 Kimi3.START_TEXT) ||
    (PyStr.startswith t Kimi3.START_TEXT &&
     negb (PyStr.contains Kimi3.END_TEXT (drop (length Kimi3.START_TEXT) t)) &&
     PyStr.endswith (drop (length Kimi3.START_TEXT) t) (take 7 Kimi3.END_TEXT))
  else if (st =? Kimi3.STATE_REASONING)%Z then
    negb (PyStr.contains Kimi3.END_TEXT t) &&
    PyStr.endswith t (take 7 Kimi3.END_TEXT)
  else false.

(** * Properties *)

(** ** The string primitives *)
Section PyStrFacts.
Implicit Types s p sub : str.

Lemma startswith_prefix s p : PyStr.startswith s p = true ↔ p `prefix_of` s.
Proof.
  revert s; induction p as [|a p IH]; intros [|b s]; simpl.
  - split; [intros _; apply prefix_nil | done].
  - split; [intros _; apply prefix_nil | done].
  - split; [done | by intros H%prefix_nil_not].
  - rewrite andb_true_iff, N.eqb_eq, IH. split.
    + intros [-> H]. by apply prefix_cons.
    + intros H. split; [by apply prefix_cons_inv_1 in H
                       | by apply prefix_cons_inv_2 in H].
Qed.

Lemma startswith_app p r : PyStr.startswith (p ++ r) p = true.
Proof. apply startswith_prefix. by exists r. Qed.

Lemma endswith_suffix s p : PyStr.endswith s p = true ↔ p `suffix_of` s.
Proof.
  unfold PyStr.endswith. rewrite startswith_prefix.
  symmetry. apply suffix_prefix_reverse.
Qed.

Lemma occurs_at_0 sub s : occurs_at sub s 0 ↔ PyStr.startswith s sub = true.
Proof.
  rewrite startswith_prefix. split.
  - intros (l & r & -> & Hl). apply nil_length_inv in Hl as ->. by exists r.
  - intros [r ->]. by exists [], r.
Qed.

Lemma occurs_at_S sub c s j : occurs_at sub (c :: s) (S j) ↔ occurs_at sub s j.
Proof.
  split.
  - intros (l & r & Hs & Hl). destruct l as [|c' l]; [done|].
    simpl in Hs, Hl. injection Hs as -> ->. exists l, r. split; [done | lia].
  - intros (l & r & -> & Hl). exists (c :: l), r. split; [done | simpl; lia].
Qed.

Lemma occurs_at_bound sub s i : occurs_at sub s i → i + length sub ≤ length s.
Proof. intros (l & r & -> & <-). rewrite !length_app. lia. Qed.

Lemma occurs_at_split sub s i :
  occurs_at sub s i → s = take i s ++ sub ++ drop (i + length sub) s.
Proof.
  intros (l & r & -> & <-).
  rewrite take_app_length. f_equal.
  rewrite drop_app_add'; [|done].
  by rewrite drop_app_length.
Qed.

Lemma find_opt_unfold s sub :
  PyStr.find_opt s sub =
  if PyStr.startswith s sub then Some 0
  else match s with
       | [] => None
       | _ :: s' => S <$> PyStr.find_opt s' sub
       end.
Proof. by destruct s. Qed.

Lemma find_opt_first s sub i : PyStr.find_opt s sub = Some i ↔ first_at sub s i.
Proof.
  revert i. induction s as [|c s IH]; intros i.
  - rewrite find_opt_unfold. destruct (PyStr.startswith [] sub) eqn:E.
    + split.
      * intros [= <-]. split; [by apply occurs_at_0 | intros j Hj; lia].
      * intros [_ Hmin]. destruct i as [|i]; [done|].
        destruct (Hmin 0); [lia | by apply occurs_at_0].
    + split; [done|]. intros [Hocc _].
      assert (i = 0) as -> by (apply occurs_at_bound in Hocc; simpl in Hocc; lia).
      apply occurs_at_0 in Hocc. congruence.
  - rewrite find_opt_unfold. destruct (PyStr.startswith (c :: s) sub) eqn:E.
    + split.
      * intros [= <-]. split; [by apply occurs_at_0 | intros j Hj; lia].
      * intros [_ Hmin]. destruct i as [|i]; [done|].
        destruct (Hmin 0); [lia | by apply occurs_at_0].
    + rewrite fmap_Some. split.
      * intros (i' & Hi' & ->). apply IH in Hi' as [Hocc Hmin]. split.
        -- by apply occurs_at_S.
        -- intros [|j] Hj.
           ++ rewrite occurs_at_0. congruence.
           ++ rewrite occurs_at_S. apply Hmin. lia.
      * intros [Hocc Hmin]. destruct i as [|i].
        -- apply occurs_at_0 in Hocc. congruence.
        -- exists i. split; [|done]. apply IH. split.
           ++ by apply occurs_at_S in Hocc.
           ++ intros j Hj Hoccj. apply (Hmin (S j)); [lia|].
              by apply occurs_at_S.
Qed.

Lemma find_opt_None s sub : PyStr.find_opt s sub = None ↔ ∀ i, ¬ occurs_at sub s i.
Proof.
  induction s as [|c s IH]; rewrite find_opt_unfold.
  - destruct (PyStr.startswith [] sub) eqn:E.
    + split; [done|]. intros H. destruct (H 0). by apply occurs_at_0.
    + split; [|done]. intros _ i Hocc.
      assert (i = 0) as -> by (apply occurs_at_bound in Hocc; simpl in Hocc; lia).
      apply occurs_at_0 in Hocc. congruence.
  - destruct (PyStr.startswith (c :: s) sub) eqn:E.
    + split; [done|]. intros H. destruct (H 0). by apply occurs_at_0.
    + rewrite fmap_None, IH. split.
      * intros H [|i]; [rewrite occurs_at_0; congruence|].
        rewrite occurs_at_S. apply H.
      * intros H i Hocc. apply (H (S i)). by apply occurs_at_S.
Qed.

Lemma partition_total s sep :
  sep ≠ [] → ∃ a b c, PyStr.partition s sep = Return (a, b, c).
Proof.
  intros Hsep. unfold PyStr.partition. destruct sep as [|x sep]; [done|].
  destruct (PyStr.find_opt s (x :: sep)); by eauto.
Qed.

Lemma slice_from_nat s n : PyStr.slice_from s (Z.of_nat n) = drop n s.
Proof.
  unfold PyStr.slice_from, PyStr.slice_index.
  destruct (Z.ltb_spec (Z.of_nat n) 0) as [?|_]; [lia|].
  destruct (decide (n ≤ length s)) as [Hle|Hgt].
  - by rewrite Z.min_l, Nat2Z.id by lia.
  - rewrite Z.min_r, Nat2Z.id by lia. by rewrite !drop_ge by lia.
Qed.

Lemma slice_to_nat s n : PyStr.slice_to s (Z.of_nat n) = take n s.
Proof.
  unfold PyStr.slice_to, PyStr.slice_index.
  destruct (Z.ltb_spec (Z.of_nat n) 0) as [?|_]; [lia|].
  destruct (decide (n ≤ length s)) as [Hle|Hgt].
  - by rewrite Z.min_l, Nat2Z.id by lia.
  - rewrite Z.min_r, Nat2Z.id by lia. by rewrite !take_ge by lia.
Qed.

Lemma slice_to_neg s n :
  0 < n → PyStr.slice_to s (- Z.of_nat n) = take (length s - n) s.
Proof.
  intros Hn. unfold PyStr.slice_to, PyStr.slice_index.
  destruct (Z.ltb_spec (- Z.of_nat n) 0) as [_|?]; [|lia].
  f_equal. lia.
Qed.

End PyStrFacts.

(** ** The pattern of kimi2 *)
Section Kimi2Regex.
Import Kimi2.
Implicit Types s g l : str.

(** The pattern every constructed parser holds. *)
Local Abbreviation reasoning_pattern :=
  {| nodes := [Literal tag_open; GroupAnyLazy;
               Literal tag_close; GroupAnyGreedy];
     dotall := true |}.

Lemma init_regex {Tokenizer} (truth : Tokenizer → bool) super_init tok self :
  __init__ truth super_init tok = Return self →
  reasoning_regex self = reasoning_pattern.
Proof.
  unfold __init__, py_bind. destruct (super_init tok) as [mt|]; [|done].
  destruct (negb (py_truth truth mt)); [done|]. by intros [= <-].
Qed.

(** Under DOTALL the trailing greedy group takes all that is left. *)
Lemma greedy_any_end g s :
  greedy_any true (match_here true []) g s = Some ([g ++ s], []).
Proof.
  revert g; induction s as [|c s IH]; intros g.
  - simpl. by rewrite app_nil_r.
  - simpl. rewrite IH. by rewrite <- app_assoc.
Qed.

(** The lazy group before a literal stops at the first occurrence of
    that literal. *)
Lemma lazy_any_until g s l :
  lazy_any true (match_here true [Literal l; GroupAnyGreedy]) g s =
  match PyStr.find_opt s l with
  | Some i => Some ([g ++ take i s; drop (i + length l) s], [])
  | None => None
  end.
Proof.
  revert g; induction s as [|c s IH]; intros g; rewrite find_opt_unfold.
  - cbn [lazy_any match_here].
    destruct (PyStr.startswith [] l); [|done].
    rewrite greedy_any_end. simpl. by rewrite app_nil_r.
  - cbn [lazy_any match_here].
    destruct (PyStr.startswith (c :: s) l).
    + rewrite greedy_any_end. simpl. by rewrite app_nil_r.
    + cbn [dot_matches orb]. rewrite IH.
      destruct (PyStr.find_opt s l) as [i|]; [|done].
      simpl. by rewrite <- app_assoc.
Qed.

Lemma match_here_literal flag l re s :
  match_here flag (Literal l :: re) s =
  if PyStr.startswith s l then match_here flag re (drop (length l) s)
  else None.
Proof. done. Qed.

Lemma match_here_lazy flag re s :
  match_here flag (GroupAnyLazy :: re) s =
  lazy_any flag (match_here flag re) [] s.
Proof. done. Qed.

Lemma match_here_pattern s :
  match_here true (nodes reasoning_pattern) s =
  if PyStr.startswith s tag_open then
    match PyStr.find_opt (drop (length tag_open) s) tag_close with
    | Some i =>
        Some ([take i (drop (length tag_open) s);
               drop (i + length tag_close) (drop (length tag_open) s)], [])
    | None => None
    end
  else None.
Proof.
  cbn [nodes]. rewrite match_here_literal.
  destruct (PyStr.startswith s tag_open); [|done].
  by rewrite match_here_lazy, lazy_any_until.
Qed.

Lemma search_unfold p s :
  search p s =
  match match_here (dotall p) (nodes p) s with
  | Some (gs, rest) => Some (s, gs, rest)
  | None => match s with
            | [] => None
            | _ :: s' => search p s'
            end
  end.
Proof. by destruct s. Qed.

Lemma first_at_S sub c s i : first_at sub (c :: s) (S i) → first_at sub s i.
Proof.
  intros [Hocc Hmin]. split.
  - by apply occurs_at_S in Hocc.
  - intros j Hj Hoccj. apply (Hmin (S j)); [lia|]. by apply occurs_at_S.
Qed.

(** The leftmost match starts at the first start tag and its lazy group
    ends at the first end tag after it. *)
Lemma search_first_pair pre mid post :
  first_at tag_open (pre ++ tag_open ++ mid ++ tag_close ++ post) (length pre) →
  first_at tag_close (mid ++ tag_close ++ post) (length mid) →
  search reasoning_pattern (pre ++ tag_open ++ mid ++ tag_close ++ post) =
  Some (tag_open ++ mid ++ tag_close ++ post, [mid; post], []).
Proof.
  intros Hs He. induction pre as [|c pre IH].
  - rewrite search_unfold. cbn [dotall app].
    rewrite match_here_pattern, startswith_app, drop_app_length.
    apply find_opt_first in He as ->.
    rewrite take_app_length, drop_app_add' by done.
    by rewrite drop_app_length.
  - rewrite search_unfold. cbn [dotall].
    rewrite match_here_pattern.
    destruct (PyStr.startswith _ tag_open) eqn:Hsw.
    + apply occurs_at_0 in Hsw. destruct Hs as [_ Hmin].
      destruct (Hmin 0); [simpl; lia | done].
    + simpl. apply IH. by apply (first_at_S _ c).
Qed.

(** A match yields a start tag followed later by an end tag. *)
Lemma search_no_pair s :
  ¬ (∃ pre mid post, s = pre ++ tag_open ++ mid ++ tag_close ++ post) →
  search reasoning_pattern s = None.
Proof.
  induction s as [|c s IH]; intros Hno; rewrite search_unfold; cbn [dotall];
    rewrite match_here_pattern.
  - done.
  - destruct (PyStr.startswith (c :: s) tag_open) eqn:Hsw.
    + destruct (PyStr.find_opt _ tag_close) as [i|] eqn:Hfind.
      * destruct Hno. apply startswith_prefix in Hsw as [k Hk].
        rewrite Hk, drop_app_length in Hfind.
        apply find_opt_first in Hfind as [Hocc%occurs_at_split _].
        exists [], (take i k), (drop (i + length tag_close) k).
        by rewrite Hk, <- Hocc.
      * apply IH. intros (pre & mid & post & ->).
        apply Hno. by exists (c :: pre), mid, post.
    + apply IH. intros (pre & mid & post & ->).
      apply Hno. by exists (c :: pre), mid, post.
Qed.

Lemma findall_one s from gs :
  search reasoning_pattern s = Some (from, gs, []) →
  from ≠ [] →
  findall reasoning_pattern s = [gs].
Proof.
  intros Hsearch Hfrom. unfold findall. cbn [findall_fuel].
  rewrite Hsearch. destruct (decide (length [] < length from)) as [_|Hlen].
  - f_equal. by destruct (length s).
  - destruct from; [done | simpl in Hlen; lia].
Qed.

Lemma findall_none s :
  search reasoning_pattern s = None → findall reasoning_pattern s = [].
Proof. intros Hsearch. unfold findall. cbn [findall_fuel]. by rewrite Hsearch. Qed.

(** With a start tag somewhere before an end tag, the first start tag
    is followed by an end tag as well. *)
Lemma pair_first s :
  (∃ pre mid post, s = pre ++ tag_open ++ mid ++ tag_close ++ post) →
  ∃ pre mid post,
    s = pre ++ tag_open ++ mid ++ tag_close ++ post ∧
    first_at tag_open s (length pre) ∧
    first_at tag_close (mid ++ tag_close ++ post) (length mid).
Proof.
  intros (pre & mid & post & Hs).
  destruct (PyStr.find_opt s tag_open) as [i|] eqn:Hi.
  2: { rewrite find_opt_None in Hi. destruct (Hi (length pre)).
       by exists pre, (mid ++ tag_close ++ post). }
  apply find_opt_first in Hi as Hfirst.
  assert (Hle : i ≤ length pre).
  { apply Nat.nlt_ge. intros Hlt. destruct Hfirst as [_ Hmin].
    apply (Hmin _ Hlt). by exists pre, (mid ++ tag_close ++ post). }
  destruct Hfirst as [Hocc Hmin].
  pose proof (occurs_at_split _ _ _ Hocc) as Hsplit.
  set (tail := drop (i + length tag_open) s) in *.
  assert (∃ k, tail = k ++ tag_close ++ post) as [k Hk].
  { destruct (decide (i = length pre)) as [->|Hne].
    - exists mid. unfold tail. rewrite Hs.
      rewrite drop_app_add' by done. by rewrite drop_app_length.
    - exists (drop (i + length tag_open) (pre ++ tag_open ++ mid)).
      unfold tail. rewrite Hs.
      replace (pre ++ tag_open ++ mid ++ tag_close ++ post)
        with ((pre ++ tag_open ++ mid) ++ tag_close ++ post)
        by (by rewrite <- !app_assoc).
      apply drop_app_le. rewrite !length_app. lia. }
  destruct (PyStr.find_opt tail tag_close) as [j|] eqn:Hj.
  2: { rewrite find_opt_None in Hj. destruct (Hj (length k)).
       by exists k, post. }
  apply find_opt_first in Hj as Hjfirst.
  pose proof (occurs_at_split _ _ _ (proj1 Hjfirst)) as Hjsplit.
  exists (take i s), (take j tail), (drop (j + length tag_close) tail).
  rewrite <- Hjsplit. split; [done|].
  rewrite length_take_le by (apply occurs_at_bound in Hocc; lia).
  split; [by split|].
  rewrite length_take_le
    by (destruct Hjfirst as [Hb%occurs_at_bound _]; lia).
  done.
Qed.

Lemma search_None_no_pair s :
  search reasoning_pattern s = None →
  ¬ (∃ pre mid post, s = pre ++ tag_open ++ mid ++ tag_close ++ post).
Proof.
  intros Hnone (pre & mid & post & -> & Hs & He)%pair_first.
  rewrite search_first_pair in Hnone; done.
Qed.

Lemma search_shape s from gs rest :
  search reasoning_pattern s = Some (from, gs, rest) →
  ∃ a b, gs = [a; b] ∧ rest = [] ∧ from ≠ [].
Proof.
  induction s as [|c s IH]; rewrite search_unfold; cbn [dotall];
    rewrite match_here_pattern.
  - done.
  - destruct (PyStr.startswith (c :: s) tag_open).
    + destruct (PyStr.find_opt _ tag_close) as [i|]; [|done].
      intros [= <- <- <-]. by eauto.
    + done.
Qed.

(** The two outcomes of the batch call, by what [findall] returns. *)
Lemma extract_match {Tokenizer Request} (self : parser Tokenizer)
    s (request : Request) a b :
  findall (reasoning_regex self) s = [[a; b]] →
  extract_reasoning_content self s request = Return (Some a, PyStr.or_none b).
Proof.
  intros Hall. unfold extract_reasoning_content. rewrite Hall.
  simpl. by destruct b.
Qed.

Lemma extract_no_match {Tokenizer Request} (self : parser Tokenizer)
    s (request : Request) :
  findall (reasoning_regex self) s = [] →
  extract_reasoning_content self s request = Return (None, Some s).
Proof. intros Hall. unfold extract_reasoning_content. by rewrite Hall. Qed.

End Kimi2Regex.

(** ** The streaming machine of kimi3 *)
Section Kimi3Streaming.
Import Kimi3.
Implicit Types (self : parser) (s delta : str).

Lemma START_PREFIXES_elem s :
  s ∈ START_PREFIXES ↔ ∃ n, n ≤ 5 ∧ s = take n START_TEXT.
Proof.
  unfold START_PREFIXES. rewrite elem_of_list_to_set.
  change (_ <$> _) with
    [take 0 START_TEXT; take 1 START_TEXT; take 2 START_TEXT;
     take 3 START_TEXT; take 4 START_TEXT; take 5 START_TEXT].
  rewrite !elem_of_cons, elem_of_nil. split.
  - intros [->|[->|[->|[->|[->|[->|[]]]]]]]; eexists; (split; [|done]); lia.
  - intros (n & Hn & ->).
    destruct n as [|[|[|[|[|[|n]]]]]]; [tauto..|lia].
Qed.

Lemma END_PREFIXES_elem s :
  s ∈ END_PREFIXES ↔ ∃ n, 1 ≤ n ≤ 6 ∧ s = take n END_TEXT.
Proof.
  change END_PREFIXES with
    [take 1 END_TEXT; take 2 END_TEXT; take 3 END_TEXT;
     take 4 END_TEXT; take 5 END_TEXT; take 6 END_TEXT].
  rewrite !elem_of_cons, elem_of_nil. split.
  - intros [->|[->|[->|[->|[->|[->|[]]]]]]]; eexists; (split; [|done]); lia.
  - intros (n & Hn & ->).
    destruct n as [|[|[|[|[|[|[|n]]]]]]]; [lia|tauto..|lia].
Qed.

(** The loop over [END_PREFIXES] stops at a member that ends the text. *)
Lemma END_PREFIXES_find delta p :
  List.find (fun p => PyStr.endswith delta p) END_PREFIXES = Some p →
  p ∈ END_PREFIXES ∧ p `suffix_of` delta.
Proof.
  intros [Hin Hend]%find_some. split.
  - by apply list_elem_of_In.
  - by apply endswith_suffix.
Qed.

(** Reduce a call without unfolding the tables or the primitives. *)
Ltac step_cbn :=
  cbn -[START_PREFIXES END_PREFIXES List.find PyStr.startswith
        PyStr.endswith PyStr.find PyStr.slice_from PyStr.slice_to
        Z.eqb Z.add Z.opp Z.of_nat START_TEXT END_TEXT
        START_TEXT_LENGTH END_TEXT_LENGTH].

(** Decide the comparisons between the state constants. *)
Ltac state_eval :=
  repeat first
    [ progress change (STATE_INITIAL =? STATE_INITIAL)%Z with true
    | progress change (STATE_REASONING =? STATE_INITIAL)%Z with false
    | progress change (STATE_OUTPUT =? STATE_INITIAL)%Z with false
    | progress change (STATE_REASONING =? STATE_REASONING)%Z with true
    | progress change (STATE_OUTPUT =? STATE_REASONING)%Z with false ];
  step_cbn.

(** After a call the accumulator is empty or one of the listed
    prefixes, whatever the instance was before. *)
Lemma streaming_accumulator self pt ct delta i1 i2 i3 :
  let self' :=
    (extract_reasoning_content_streaming self pt ct delta i1 i2 i3).1 in
  _delta_accumulator self' = [] ∨
  _delta_accumulator self' ∈ START_PREFIXES ∨
  _delta_accumulator self' ∈ END_PREFIXES.
Proof.
  unfold extract_reasoning_content_streaming. step_cbn.
  repeat match goal with
  | |- context [bool_decide ?P] => destruct (bool_decide_reflect P); step_cbn
  | |- context [List.find ?f ?l] =>
      destruct (List.find f l) eqn:Hfind; step_cbn
  | |- context [if ?b then _ else _] => destruct b eqn:?; step_cbn
  end; auto.
  all: right; right; by apply END_PREFIXES_find in Hfind as [? _].
Qed.

Lemma find_Some delta sub i :
  PyStr.find_opt delta sub = Some i → PyStr.find delta sub = Z.of_nat i.
Proof. unfold PyStr.find. by intros ->. Qed.

Lemma find_None delta sub :
  PyStr.find_opt delta sub = None → PyStr.find delta sub = (-1)%Z.
Proof. unfold PyStr.find. by intros ->. Qed.

(** *** The equations of one call, branch by branch.
    [combined] is the accumulator followed by the chunk. *)

Lemma streaming_initial_wait self pt ct delta i1 i2 i3 :
  _state self = STATE_INITIAL →
  PyStr.startswith (_delta_accumulator self ++ delta) START_TEXT = false →
  _delta_accumulator self ++ delta ∈ START_PREFIXES →
  extract_reasoning_content_streaming self pt ct delta i1 i2 i3 =
  ({| _state := STATE_INITIAL;
      _delta_accumulator := _delta_accumulator self ++ delta |}, None).
Proof.
  intros Hst Hsw Hin. unfold extract_reasoning_content_streaming.
  step_cbn. rewrite Hst, Hsw. state_eval.
  by rewrite bool_decide_eq_true_2.
Qed.

Lemma streaming_initial_output self pt ct delta i1 i2 i3 :
  _state self = STATE_INITIAL →
  PyStr.startswith (_delta_accumulator self ++ delta) START_TEXT = false →
  _delta_accumulator self ++ delta ∉ START_PREFIXES →
  extract_reasoning_content_streaming self pt ct delta i1 i2 i3 =
  ({| _state := STATE_OUTPUT; _delta_accumulator := [] |},
   Some {| reasoning_content := None;
           content := PyStr.or_none (_delta_accumulator self ++ delta) |}).
Proof.
  intros Hst Hsw Hin. unfold extract_reasoning_content_streaming.
  step_cbn. rewrite Hst, Hsw. state_eval.
  by rewrite bool_decide_eq_false_2.
Qed.

(** Entering the reasoning span and classifying what follows the start
    tag is a call in REASONING state on that remainder. *)
Lemma streaming_initial_start self pt ct delta i1 i2 i3 :
  _state self = STATE_INITIAL →
  PyStr.startswith (_delta_accumulator self ++ delta) START_TEXT = true →
  extract_reasoning_content_streaming self pt ct delta i1 i2 i3 =
  extract_reasoning_content_streaming
    {| _state := STATE_REASONING; _delta_accumulator := [] |} pt ct
    (drop (length START_TEXT) (_delta_accumulator self ++ delta)) i1 i2 i3.
Proof.
  intros Hst Hsw. unfold extract_reasoning_content_streaming.
  step_cbn. rewrite Hst, Hsw. state_eval.
  unfold START_TEXT_LENGTH. by rewrite slice_from_nat.
Qed.

Lemma streaming_reasoning_end self pt ct delta i1 i2 i3 i :
  _state self = STATE_REASONING →
  PyStr.find_opt (_delta_accumulator self ++ delta) END_TEXT = Some i →
  extract_reasoning_content_streaming self pt ct delta i1 i2 i3 =
  ({| _state := STATE_OUTPUT; _delta_accumulator := [] |},
   Some {| reasoning_content :=
             Some (take i (_delta_accumulator self ++ delta));
           content :=
             PyStr.or_none (drop (i + length END_TEXT)
                              (_delta_accumulator self ++ delta)) |}).
Proof.
  intros Hst Hfind. unfold extract_reasoning_content_streaming.
  step_cbn. rewrite Hst. state_eval.
  rewrite (find_Some _ _ _ Hfind).
  destruct (Z.eqb_spec (Z.of_nat i) (-1)) as [?|_]; [lia|].
  step_cbn. unfold END_TEXT_LENGTH.
  by rewrite slice_to_nat, <- Nat2Z.inj_add, slice_from_nat.
Qed.

Lemma streaming_reasoning_hold self pt ct delta i1 i2 i3 p :
  _state self = STATE_REASONING →
  PyStr.find_opt (_delta_accumulator self ++ delta) END_TEXT = None →
  List.find (fun p => PyStr.endswith (_delta_accumulator self ++ delta) p)
    END_PREFIXES = Some p →
  extract_reasoning_content_streaming self pt ct delta i1 i2 i3 =
  ({| _state := STATE_REASONING; _delta_accumulator := p |},
   Some {| reasoning_content :=
             Some (take (length (_delta_accumulator self ++ delta) - length p)
                     (_delta_accumulator self ++ delta));
           content := None |}).
Proof.
  intros Hst Hfind Hloop. unfold extract_reasoning_content_streaming.
  step_cbn. rewrite Hst. state_eval.
  rewrite (find_None _ _ Hfind). state_eval. rewrite Hloop.
  rewrite slice_to_neg; [done|].
  apply END_PREFIXES_find in Hloop as [(n & Hn & ->)%END_PREFIXES_elem _].
  rewrite length_take. unfold END_TEXT, tag_close. simpl. lia.
Qed.

Lemma streaming_reasoning_all self pt ct delta i1 i2 i3 :
  _state self = STATE_REASONING →
  PyStr.find_opt (_delta_accumulator self ++ delta) END_TEXT = None →
  List.find (fun p => PyStr.endswith (_delta_accumulator self ++ delta) p)
    END_PREFIXES = None →
  extract_reasoning_content_streaming self pt ct delta i1 i2 i3 =
  ({| _state := STATE_REASONING; _delta_accumulator := [] |},
   Some {| reasoning_content := Some (_delta_accumulator self ++ delta);
           content := None |}).
Proof.
  intros Hst Hfind Hloop. unfold extract_reasoning_content_streaming.
  step_cbn. rewrite Hst. state_eval.
  rewrite (find_None _ _ Hfind). state_eval. by rewrite Hloop.
Qed.

Lemma streaming_output self pt ct delta i1 i2 i3 :
  _state self ≠ STATE_INITIAL →
  _state self ≠ STATE_REASONING →
  extract_reasoning_content_streaming self pt ct delta i1 i2 i3 =
  ({| _state := _state self; _delta_accumulator := [] |},
   Some {| reasoning_content := None;
           content := PyStr.or_none (_delta_accumulator self ++ delta) |}).
Proof.
  intros H0 H1. unfold extract_reasoning_content_streaming. step_cbn.
  destruct (Z.eqb_spec (_state self) STATE_INITIAL) as [?|_]; [done|].
  step_cbn.
  by destruct (Z.eqb_spec (_state self) STATE_REASONING) as [?|_].
Qed.

Lemma init_fresh {Tokenizer}
    (super_init : option Tokenizer → py (option Tokenizer)) tok self :
  __init__ super_init tok = Return self →
  self = {| _state := STATE_INITIAL; _delta_accumulator := [] |}.
Proof.
  unfold __init__, py_bind. destruct (super_init tok); congruence.
Qed.

(** A text shorter than a tag does not start with it. *)
Lemma startswith_short s p :
  length s < length p → PyStr.startswith s p = false.
Proof.
  intros Hlen. apply not_true_is_false.
  intros Hp%startswith_prefix%prefix_length. lia.
Qed.

(** The members of [END_PREFIXES] end in pairwise distinct characters,
    so at most one of them ends a given text. *)
Lemma END_PREFIXES_loop delta n :
  1 ≤ n ≤ 6 →
  take n END_TEXT `suffix_of` delta →
  List.find (fun p => PyStr.endswith delta p) END_PREFIXES
  = Some (take n END_TEXT).
Proof.
  intros Hn Hsuf.
  destruct (List.find _ END_PREFIXES) as [p|] eqn:Hloop.
  - apply END_PREFIXES_find in Hloop as [(m & Hm & ->)%END_PREFIXES_elem Hp].
    f_equal.
    destruct Hsuf as [k1 Hk1], Hp as [k2 Hk2].
    assert (Hlast : last (take m END_TEXT) = last (take n END_TEXT)).
    { transitivity (last delta).
      - rewrite Hk2, last_app.
        destruct m as [|[|[|[|[|[|[|m]]]]]]]; (lia || reflexivity).
      - rewrite Hk1, last_app.
        destruct n as [|[|[|[|[|[|[|n]]]]]]]; (lia || reflexivity). }
    destruct m as [|[|[|[|[|[|[|m]]]]]]]; try lia;
      destruct n as [|[|[|[|[|[|[|n]]]]]]]; try lia;
      first [reflexivity | discriminate Hlast].
  - exfalso. apply find_none with (x := take n END_TEXT) in Hloop.
    + apply endswith_suffix in Hsuf. congruence.
    + apply list_elem_of_In, END_PREFIXES_elem. eauto.
Qed.

(** What holds of the two buffering rules: a start-tag prefix of up to
    five characters is buffered, and an end-tag prefix of up to six
    characters is withheld. *)
Lemma streaming_buffers_start_prefix self pt ct delta i1 i2 i3 n :
  _state self = STATE_INITIAL →
  n ≤ 5 →
  _delta_accumulator self ++ delta = take n START_TEXT →
  extract_reasoning_content_streaming self pt ct delta i1 i2 i3 =
  ({| _state := STATE_INITIAL; _delta_accumulator := take n START_TEXT |},
   None).
Proof.
  intros Hst Hn Hc.
  rewrite streaming_initial_wait; [by rewrite Hc|done|..].
  - apply startswith_short. rewrite Hc, length_take.
    unfold START_TEXT, tag_open. simpl. lia.
  - apply START_PREFIXES_elem. eauto.
Qed.

Lemma streaming_withholds_end_prefix self pt ct delta i1 i2 i3 n :
  _state self = STATE_REASONING →
  1 ≤ n ≤ 6 →
  (∀ i, ¬ occurs_at END_TEXT (_delta_accumulator self ++ delta) i) →
  take n END_TEXT `suffix_of` _delta_accumulator self ++ delta →
  extract_reasoning_content_streaming self pt ct delta i1 i2 i3 =
  ({| _state := STATE_REASONING; _delta_accumulator := take n END_TEXT |},
   Some {| reasoning_content :=
             Some (take (length (_delta_accumulator self ++ delta) - n)
                     (_delta_accumulator self ++ delta));
           content := None |}).
Proof.
  intros Hst Hn Hno Hsuf.
  rewrite (streaming_reasoning_hold _ _ _ _ _ _ _ (take n END_TEXT));
    [|done|by apply find_opt_None|by apply END_PREFIXES_loop].
  rewrite length_take. unfold END_TEXT at 2, tag_close. simpl length.
  by rewrite Nat.min_l by lia.
Qed.

(** The end tag met in the call that also consumes the start tag. *)
Lemma streaming_start_then_end self pt ct delta i1 i2 i3 (r rest : str) :
  _state self = STATE_INITIAL →
  _delta_accumulator self ++ delta = START_TEXT ++ r ++ END_TEXT ++ rest →
  first_at END_TEXT (r ++ END_TEXT ++ rest) (length r) →
  extract_reasoning_content_streaming self pt ct delta i1 i2 i3 =
  ({| _state := STATE_OUTPUT; _delta_accumulator := [] |},
   Some {| reasoning_content := Some r;
           content := PyStr.or_none rest |}).
Proof.
  intros Hst Hc Hfirst.
  rewrite streaming_initial_start; [|done|by rewrite Hc, startswith_app].
  rewrite Hc, drop_app_length.
  rewrite (streaming_reasoning_end _ _ _ _ _ _ _ (length r));
    [|done|by apply find_opt_first].
  cbn [_delta_accumulator app]. rewrite take_app_length.
  rewrite drop_app_add' by done. by rewrite drop_app_length.
Qed.

(** The state never returns to INITIAL. *)
Lemma streaming_leaves_initial self pt ct delta i1 i2 i3 :
  _state self ≠ STATE_INITIAL →
  _state (extract_reasoning_content_streaming self pt ct delta i1 i2 i3).1
    ≠ STATE_INITIAL ∧
  is_Some (extract_reasoning_content_streaming self pt ct delta i1 i2 i3).2.
Proof.
  intros Hst.
  destruct (decide (_state self = STATE_REASONING)) as [Hr|Hr].
  - destruct (PyStr.find_opt (_delta_accumulator self ++ delta) END_TEXT)
      as [i|] eqn:Hfind.
    + rewrite (streaming_reasoning_end _ _ _ _ _ _ _ i) by done. by eauto.
    + destruct (List.find
                  (fun p => PyStr.endswith (_delta_accumulator self ++ delta) p)
                  END_PREFIXES) as [p|] eqn:Hloop.
      * rewrite (streaming_reasoning_hold _ _ _ _ _ _ _ p) by done. by eauto.
      * rewrite streaming_reasoning_all by done. by eauto.
  - rewrite streaming_output by done. by eauto.
Qed.

Lemma feed_cons self pt delta chunks :
  feed self pt (delta :: chunks) =
  let r := extract_reasoning_content_streaming
             self pt (pt ++ delta) delta [] [] [] in
  let rs := feed r.1 (pt ++ delta) chunks in
  (rs.1, r.2 :: rs.2).
Proof.
  simpl. destruct (extract_reasoning_content_streaming _ _ _ _ _ _ _).
  simpl. by destruct (feed _ _ _).
Qed.

Lemma feed_leaves_initial self pt chunks :
  _state self ≠ STATE_INITIAL →
  _state (feed self pt chunks).1 ≠ STATE_INITIAL ∧
  Forall is_Some (feed self pt chunks).2.
Proof.
  revert self pt. induction chunks as [|delta chunks IH]; intros self pt Hst.
  - simpl. by split.
  - rewrite feed_cons. simpl.
    destruct (streaming_leaves_initial self pt (pt ++ delta) delta [] [] [] Hst)
      as [Hst' Hout].
    destruct (IH _ (pt ++ delta) Hst') as [Hfin Hall].
    split; [done | by constructor].
Qed.

Lemma feed_accumulator self pt chunks :
  length (_delta_accumulator self) ≤ 6 →
  length (_delta_accumulator (feed self pt chunks).1) ≤ 6.
Proof.
  revert self pt. induction chunks as [|delta chunks IH]; intros self pt Hacc.
  - done.
  - rewrite feed_cons. simpl. apply IH.
    destruct (streaming_accumulator self pt (pt ++ delta) delta [] [] [])
      as [->|[(n & Hn & ->)%START_PREFIXES_elem
             |(n & Hn & ->)%END_PREFIXES_elem]].
    + simpl. lia.
    + rewrite length_take. lia.
    + rewrite length_take. lia.
Qed.

End Kimi3Streaming.

(** ** Claims about the streaming machine *)
Section Kimi3Claims.
Import Kimi3.

(** C1, chunk-boundary invariance, evaluated where it breaks.  The text
    '◁think▷a' delivered as the chunks '◁think' and '▷a' is emitted
    entirely as content with no reasoning; delivered as one chunk it
    is emitted as the reasoning 'a' with no content. *)
Theorem kimi3_chunking_changes_output :
  let fresh := {| _state := STATE_INITIAL; _delta_accumulator := [] |} in
  let text := START_TEXT ++ [97%N] in
  let chunks := [take 6 text; drop 6 text] in
  concat chunks = text ∧
  emitted reasoning_content (feed fresh [] chunks).2 = [] ∧
  emitted content (feed fresh [] chunks).2 = text ∧
  emitted reasoning_content (feed fresh [] [text]).2 = [97%N] ∧
  emitted content (feed fresh [] [text]).2 = [].
Proof. by vm_compute. Qed.

(** The same defect on the end-tag side: '◁think▷a◁/think▷b' cut before
    the final '▷' never leaves the reasoning span. *)
Lemma kimi3_chunking_splits_end_tag :
  let fresh := {| _state := STATE_INITIAL; _delta_accumulator := [] |} in
  let text := START_TEXT ++ [97%N] ++ END_TEXT ++ [98%N] in
  let chunks := [take 15 text; drop 15 text] in
  concat chunks = text ∧
  emitted reasoning_content (feed fresh [] chunks).2
    = [97%N] ++ END_TEXT ++ [98%N] ∧
  emitted content (feed fresh [] chunks).2 = [] ∧
  emitted reasoning_content (feed fresh [] [text]).2 = [97%N] ∧
  emitted content (feed fresh [] [text]).2 = [98%N].
Proof. by vm_compute. Qed.

(** And one character per chunk: the start tag is never recognised. *)
Lemma kimi3_chunking_per_character :
  let fresh := {| _state := STATE_INITIAL; _delta_accumulator := [] |} in
  let text := START_TEXT ++ [97%N] in
  let chunks := (fun c => [c]) <$> text in
  concat chunks = text ∧
  emitted reasoning_content (feed fresh [] chunks).2 = [] ∧
  emitted content (feed fresh [] chunks).2 = text.
Proof. by vm_compute. Qed.

(** C2, withholding of an end-tag prefix, evaluated where it breaks.  In
    REASONING state the text 'a◁/think' holds no end tag and ends with
    the seven-character prefix '◁/think' of the end tag, yet nothing is
    withheld: the accumulator stays empty and the whole text is returned
    as reasoning. *)
Theorem kimi3_end_prefix_of_length_7_not_withheld pt ct i1 i2 i3 :
  let combined := [97%N] ++ take 7 END_TEXT in
  PyStr.find combined END_TEXT = (-1)%Z ∧
  take 7 END_TEXT `suffix_of` combined ∧
  extract_reasoning_content_streaming
    {| _state := STATE_REASONING; _delta_accumulator := [] |}
    pt ct combined i1 i2 i3 =
  ({| _state := STATE_REASONING; _delta_accumulator := [] |},
   Some {| reasoning_content := Some combined; content := None |}).
Proof.
  split; [by vm_compute|]. split; [by exists [97%N]|]. by vm_compute.
Qed.

(** C3, buffering of a start-tag prefix, evaluated where it breaks.  In
    INITIAL state the six-character prefix '◁think' of the start tag is
    not buffered: the state moves to OUTPUT and the text is returned as
    content. *)
Theorem kimi3_start_prefix_of_length_6_not_buffered pt ct i1 i2 i3 :
  extract_reasoning_content_streaming
    {| _state := STATE_INITIAL; _delta_accumulator := [] |}
    pt ct (take 6 START_TEXT) i1 i2 i3 =
  ({| _state := STATE_OUTPUT; _delta_accumulator := [] |},
   Some {| reasoning_content := None;
           content := Some (take 6 START_TEXT) |}).
Proof. by vm_compute. Qed.

(** C8: bounded withholding.  Whatever chunks are fed to a newly
    constructed instance, the accumulator left between calls is shorter
    than max(len(start tag), len(end tag)) - 1 = 7, hence also shorter
    than max(len(start tag), len(end tag)). *)
Theorem kimi3_bounded_withholding {Tokenizer}
    (super_init : option Tokenizer → py (option Tokenizer)) tok self
    (pt : str) (chunks : list str) :
  __init__ super_init tok = Return self →
  length (_delta_accumulator (feed self pt chunks).1)
    < length START_TEXT `max` length END_TEXT - 1 ∧
  length (_delta_accumulator (feed self pt chunks).1)
    < length START_TEXT `max` length END_TEXT.
Proof.
  intros ->%init_fresh.
  pose proof (feed_accumulator
    {| _state := STATE_INITIAL; _delta_accumulator := [] |} pt chunks) as H.
  simpl in H. specialize (H ltac:(lia)).
  change (length START_TEXT `max` length END_TEXT) with 8. lia.
Qed.

Lemma kimi3_bounded_withholding_witness :
  length (_delta_accumulator
            (feed {| _state := STATE_INITIAL; _delta_accumulator := [] |} []
               [START_TEXT ++ [97%N] ++ take 6 END_TEXT]).1) < 7.
Proof.
  refine (proj1 (kimi3_bounded_withholding (Tokenizer := unit) Return None
                   _ [] [START_TEXT ++ [97%N] ++ take 6 END_TEXT] _)).
  reflexivity.
Defined.

(** C9: the end-tag event.  In REASONING state, when the combined text
    holds its first end tag after [r], the call moves to OUTPUT and
    returns [r] itself as reasoning_content, also when [r] is the empty
    string (it is then [Some []], not [None]), while the text [rest]
    after the end tag is returned as content: [None] when [rest] is the
    empty string, and [Some rest] otherwise. *)
Theorem kimi3_end_tag_event self pt ct chunk i1 i2 i3 (r rest : str) :
  _state self = STATE_REASONING →
  _delta_accumulator self ++ chunk = r ++ END_TEXT ++ rest →
  first_at END_TEXT (r ++ END_TEXT ++ rest) (length r) →
  extract_reasoning_content_streaming self pt ct chunk i1 i2 i3 =
  ({| _state := STATE_OUTPUT; _delta_accumulator := [] |},
   Some {| reasoning_content := Some r;
           content := match rest with
                      | [] => None
                      | _ :: _ => Some rest
                      end |}).
Proof.
  intros Hst Hc Hfirst.
  rewrite (streaming_reasoning_end _ _ _ _ _ _ _ (length r));
    [|done|by rewrite Hc; apply find_opt_first].
  rewrite Hc, take_app_length.
  rewrite drop_app_add' by done. rewrite drop_app_length.
  by destruct rest.
Qed.

Lemma kimi3_end_tag_event_witness :
  extract_reasoning_content_streaming
    {| _state := STATE_REASONING; _delta_accumulator := take 3 END_TEXT |}
    [] [] (drop 3 END_TEXT) [] [] [] =
  ({| _state := STATE_OUTPUT; _delta_accumulator := [] |},
   Some {| reasoning_content := Some []; content := None |}) ∧
  extract_reasoning_content_streaming
    {| _state := STATE_REASONING; _delta_accumulator := take 3 END_TEXT |}
    [] [] (drop 3 END_TEXT ++ [98%N; 99%N]) [] [] [] =
  ({| _state := STATE_OUTPUT; _delta_accumulator := [] |},
   Some {| reasoning_content := Some []; content := Some [98%N; 99%N] |}) ∧
  extract_reasoning_content_streaming
    {| _state := STATE_REASONING; _delta_accumulator := [] |}
    [] [] ([97%N] ++ END_TEXT ++ [98%N]) [] [] [] =
  ({| _state := STATE_OUTPUT; _delta_accumulator := [] |},
   Some {| reasoning_content := Some [97%N]; content := Some [98%N] |}).
Proof.
  split; [|split].
  - apply (kimi3_end_tag_event
             {| _state := STATE_REASONING;
                _delta_accumulator := take 3 END_TEXT |}
             [] [] (drop 3 END_TEXT) [] [] [] [] []).
    + reflexivity.
    + reflexivity.
    + apply find_opt_first. reflexivity.
  - apply (kimi3_end_tag_event
             {| _state := STATE_REASONING;
                _delta_accumulator := take 3 END_TEXT |}
             [] [] (drop 3 END_TEXT ++ [98%N; 99%N]) [] [] []
             [] [98%N; 99%N]).
    + reflexivity.
    + reflexivity.
    + apply find_opt_first. reflexivity.
  - apply (kimi3_end_tag_event
             {| _state := STATE_REASONING; _delta_accumulator := [] |}
             [] [] ([97%N] ++ END_TEXT ++ [98%N]) [] [] []
             [97%N] [98%N]).
    + reflexivity.
    + reflexivity.
    + apply find_opt_first. reflexivity.
Defined.

(** C10: suspension.  Once the state is no longer INITIAL, every later
    call returns a DeltaMessage and the state stays out of INITIAL; a call
    returns None only when the state is INITIAL and the combined text is
    one of the buffered start-tag prefixes, which it then stores, staying
    in INITIAL. *)
Theorem kimi3_suspends_only_in_initial :
  (∀ self pt chunks,
     _state self ≠ STATE_INITIAL →
     Forall is_Some (feed self pt chunks).2 ∧
     _state (feed self pt chunks).1 ≠ STATE_INITIAL) ∧
  (∀ self pt ct delta i1 i2 i3,
     (extract_reasoning_content_streaming self pt ct delta i1 i2 i3).2 = None →
     _state self = STATE_INITIAL ∧
     _delta_accumulator self ++ delta ∈ START_PREFIXES ∧
     (extract_reasoning_content_streaming self pt ct delta i1 i2 i3).1 =
     {| _state := STATE_INITIAL;
        _delta_accumulator := _delta_accumulator self ++ delta |}).
Proof.
  split.
  - intros self pt chunks Hst.
    by destruct (feed_leaves_initial self pt chunks Hst).
  - intros self pt ct delta i1 i2 i3 Hnone.
    destruct (decide (_state self = STATE_INITIAL)) as [Hst|Hst].
    + destruct (PyStr.startswith (_delta_accumulator self ++ delta) START_TEXT)
        eqn:Hsw.
      * rewrite streaming_initial_start in Hnone by done.
        destruct (streaming_leaves_initial
                    {| _state := STATE_REASONING; _delta_accumulator := [] |}
                    pt ct
                    (drop (length START_TEXT) (_delta_accumulator self ++ delta))
                    i1 i2 i3) as [_ [m Hm]]; [done|].
        congruence.
      * destruct (decide (_delta_accumulator self ++ delta ∈ START_PREFIXES))
          as [Hin|Hin].
        -- by rewrite streaming_initial_wait.
        -- by rewrite streaming_initial_output in Hnone.
    + destruct (streaming_leaves_initial self pt ct delta i1 i2 i3 Hst)
        as [_ [m Hm]].
      congruence.
Qed.

Lemma kimi3_suspends_only_in_initial_witness :
  Forall is_Some
    (feed {| _state := STATE_REASONING; _delta_accumulator := [] |} []
       [[97%N]; take 2 END_TEXT; drop 2 END_TEXT; [98%N]]).2 ∧
  _state {| _state := STATE_INITIAL; _delta_accumulator := take 2 START_TEXT |}
    = STATE_INITIAL.
Proof.
  split.
  - refine (proj1 (proj1 kimi3_suspends_only_in_initial
                     {| _state := STATE_REASONING; _delta_accumulator := [] |}
                     [] [[97%N]; take 2 END_TEXT; drop 2 END_TEXT; [98%N]] _)).
    discriminate.
  - refine (proj1 (proj2 kimi3_suspends_only_in_initial
                     {| _state := STATE_INITIAL;
                        _delta_accumulator := take 2 START_TEXT |}
                     [] [] [104%N] [] [] [] _)).
    reflexivity.
Defined.

End Kimi3Claims.

(** ** Claims about the batch splitters and the constructors *)
Section BatchClaims.

(** C4, the prefix policy on 'start tag, reasoning, end tag, content',
    as the two parsers implement it.  When the input starts with the
    start tag and [r] is the text up to the first end tag after it,
    kimi3 returns [r] as reasoning with the empty string turned into
    None, while kimi returns [r] as it is, the empty string included;
    both return the text after that end tag as content, the empty string
    turned into None. *)
Theorem prefix_policy_split {Request} (request : Request) (r rest : str) :
  first_at tag_close (r ++ tag_close ++ rest) (length r) →
  Kimi3.extract_reasoning_content
    (tag_open ++ r ++ tag_close ++ rest) request
    = Return (PyStr.or_none r, PyStr.or_none rest) ∧
  Kimi.extract_reasoning_content
    (tag_open ++ r ++ tag_close ++ rest) request
    = Return (Some r, PyStr.or_none rest).
Proof.
  intros Hfirst%find_opt_first. split.
  - unfold Kimi3.extract_reasoning_content.
    unfold Kimi3.START_TEXT, Kimi3.END_TEXT, Kimi3.START_TEXT_LENGTH,
      Kimi3.END_TEXT_LENGTH.
    rewrite startswith_app. cbn [negb].
    rewrite slice_from_nat, drop_app_length.
    rewrite (find_Some _ _ _ Hfirst).
    destruct (Z.eqb_spec (Z.of_nat (length r)) (-1)) as [?|_]; [lia|].
    rewrite slice_to_nat, take_app_length.
    rewrite <- Nat2Z.inj_add, slice_from_nat.
    rewrite drop_app_add' by done. by rewrite drop_app_length.
  - unfold Kimi.extract_reasoning_content, Kimi.start_token, Kimi.end_token.
    rewrite startswith_app. cbn [negb].
    rewrite slice_from_nat, drop_app_length.
    unfold PyStr.contains, PyStr.partition. rewrite Hfirst.
    cbn [negb tag_close py_bind].
    rewrite take_app_length.
    rewrite drop_app_add' by done. by rewrite drop_app_length.
Qed.

Lemma prefix_policy_split_witness :
  Kimi3.extract_reasoning_content (tag_open ++ tag_close ++ [98%N]) ()
    = Return (None, Some [98%N]) ∧
  Kimi.extract_reasoning_content (tag_open ++ tag_close ++ [98%N]) ()
    = Return (Some [], Some [98%N]).
Proof.
  apply (prefix_policy_split () [] [98%N]).
  apply find_opt_first. reflexivity.
Defined.

(** C4 as stated fails for kimi: on '◁think▷◁/think▷b' it returns the
    empty string, not None, as reasoning. *)
Lemma kimi_keeps_empty_reasoning :
  Kimi.extract_reasoning_content (tag_open ++ tag_close ++ [98%N]) ()
    ≠ Return (None, Some [98%N]).
Proof. by vm_compute. Qed.

(** C5, construction, as the three constructors implement it.  Over a
    base-class constructor that only stores the reference, and with
    tokenizer objects that are truthy, kimi and kimi2 raise ValueError
    exactly when the tokenizer reference is None and succeed otherwise;
    kimi3 makes no check and succeeds for every reference, None
    included. *)
Theorem construction_contract {Tokenizer} (truth : Tokenizer → bool)
    (super_init : option Tokenizer → py (option Tokenizer))
    (tok : option Tokenizer) :
  (∀ t, super_init t = Return t) →
  (∀ t, truth t = true) →
  (tok = None ↔ Kimi.__init__ truth super_init tok = Raise ValueError) ∧
  (tok ≠ None ↔ ∃ p, Kimi.__init__ truth super_init tok = Return p) ∧
  (tok = None ↔ Kimi2.__init__ truth super_init tok = Raise ValueError) ∧
  (tok ≠ None ↔ ∃ p, Kimi2.__init__ truth super_init tok = Return p) ∧
  Kimi3.__init__ super_init tok
    = Return {| Kimi3._state := Kimi3.STATE_INITIAL;
                Kimi3._delta_accumulator := [] |}.
Proof.
  intros Hsuper Htruth.
  unfold Kimi.__init__, Kimi2.__init__, Kimi3.__init__, py_bind.
  rewrite Hsuper. destruct tok as [t|]; simpl.
  - rewrite Htruth. simpl. repeat split; try done; eauto.
  - repeat split; try done; by intros [p Hp].
Qed.

Lemma construction_contract_witness :
  Kimi.__init__ (fun _ : () => true) Return None = Raise ValueError ∧
  Kimi3.__init__ (Tokenizer := ()) Return None
    = Return {| Kimi3._state := Kimi3.STATE_INITIAL;
                Kimi3._delta_accumulator := [] |}.
Proof.
  pose proof (construction_contract (fun _ : () => true) Return None
                (fun t => eq_refl) (fun t => eq_refl)) as (H1 & _ & _ & _ & H3).
  split; [by apply H1 | exact H3].
Defined.

(** C5 as stated fails for kimi3: with no tokenizer, construction over
    a base class that stores the reference does not raise. *)
Lemma kimi3_accepts_missing_tokenizer :
  ¬ (∀ tok : option (),
       tok = None ↔ ∃ e, Kimi3.__init__ Return tok = Raise e).
Proof.
  intros H. destruct (proj1 (H None) eq_refl) as [e He]. discriminate He.
Qed.

(** C6: the anywhere policy of kimi2, for every constructed parser.
    When the input holds a start tag followed later by an end tag, the
    text between the first start tag and the first end tag after it is
    returned as reasoning and the text after that end tag as content
    (None when empty); what precedes the start tag appears in neither.
    Every input with such a pair splits in this way.  Without such a
    pair the result is (None, input). *)
Theorem kimi2_anywhere_policy {Tokenizer Request} (truth : Tokenizer → bool)
    super_init tok (self : Kimi2.parser Tokenizer) (request : Request) :
  Kimi2.__init__ truth super_init tok = Return self →
  (∀ pre mid post,
     first_at tag_open (pre ++ tag_open ++ mid ++ tag_close ++ post)
       (length pre) →
     first_at tag_close (mid ++ tag_close ++ post) (length mid) →
     Kimi2.extract_reasoning_content self
       (pre ++ tag_open ++ mid ++ tag_close ++ post) request
     = Return (Some mid, PyStr.or_none post)) ∧
  (∀ s,
     (∃ pre mid post, s = pre ++ tag_open ++ mid ++ tag_close ++ post) →
     ∃ pre mid post,
       s = pre ++ tag_open ++ mid ++ tag_close ++ post ∧
       first_at tag_open s (length pre) ∧
       first_at tag_close (mid ++ tag_close ++ post) (length mid) ∧
       Kimi2.extract_reasoning_content self s request
       = Return (Some mid, PyStr.or_none post)) ∧
  (∀ s,
     ¬ (∃ pre mid post, s = pre ++ tag_open ++ mid ++ tag_close ++ post) →
     Kimi2.extract_reasoning_content self s request = Return (None, Some s)).
Proof.
  intros Hinit%init_regex.
  assert (Hpair : ∀ pre mid post,
     first_at tag_open (pre ++ tag_open ++ mid ++ tag_close ++ post)
       (length pre) →
     first_at tag_close (mid ++ tag_close ++ post) (length mid) →
     Kimi2.extract_reasoning_content self
       (pre ++ tag_open ++ mid ++ tag_close ++ post) request
     = Return (Some mid, PyStr.or_none post)).
  { intros pre mid post Hs He. apply extract_match. rewrite Hinit.
    apply (findall_one _ (tag_open ++ mid ++ tag_close ++ post));
      [by apply search_first_pair | done]. }
  split; [done|]. split.
  - intros s (pre & mid & post & -> & Hs & He)%pair_first.
    exists pre, mid, post. by eauto.
  - intros s Hno. apply extract_no_match. rewrite Hinit.
    by apply findall_none, search_no_pair.
Qed.

Lemma kimi2_anywhere_policy_witness :
  let self := {| Kimi2.model_tokenizer := Some ();
                  Kimi2.start_token := tag_open;
                  Kimi2.end_token := tag_close;
                  Kimi2.reasoning_regex :=
                    {| Kimi2.nodes :=
                         [Kimi2.Literal tag_open; Kimi2.GroupAnyLazy;
                          Kimi2.Literal tag_close; Kimi2.GroupAnyGreedy];
                       Kimi2.dotall := true |} |} in
  Kimi2.extract_reasoning_content self
    ([120%N] ++ tag_open ++ [97%N] ++ tag_close ++ [98%N]) ()
    = Return (Some [97%N], Some [98%N]) ∧
  Kimi2.extract_reasoning_content self ([120%N] ++ tag_close ++ tag_open) ()
    = Return (None, Some ([120%N] ++ tag_close ++ tag_open)).
Proof.
  intros self.
  destruct (kimi2_anywhere_policy (Request := ()) (fun _ : () => true)
              Return (Some ()) self () eq_refl)
    as (Hpair & _ & Hnone).
  split.
  - apply (Hpair [120%N] [97%N] [98%N]); apply find_opt_first; reflexivity.
  - apply Hnone. apply search_None_no_pair. reflexivity.
Defined.

(** C7: the batch call never raises.  For every input text, each of
    the three batch operations returns a pair of optional strings. *)
Theorem batch_never_raises {Tokenizer Request} (truth : Tokenizer → bool)
    super_init tok (self : Kimi2.parser Tokenizer)
    (model_output : str) (request : Request) :
  Kimi2.__init__ truth super_init tok = Return self →
  (∃ r c, Kimi.extract_reasoning_content model_output request
          = Return (r, c)) ∧
  (∃ r c, Kimi2.extract_reasoning_content self model_output request
          = Return (r, c)) ∧
  (∃ r c, Kimi3.extract_reasoning_content model_output request
          = Return (r, c)).
Proof.
  intros Hinit%init_regex. split; [|split].
  - unfold Kimi.extract_reasoning_content.
    destruct (negb (PyStr.startswith _ _)); [by eauto|].
    cbv zeta. destruct (negb (PyStr.contains _ _)); [by eauto|].
    destruct (partition_total
                (PyStr.slice_from model_output
                   (Z.of_nat (length Kimi.start_token)))
                Kimi.end_token) as (a & b & c & ->); [done|].
    simpl. by eauto.
  - destruct (Kimi2.search (Kimi2.reasoning_regex self) model_output)
      as [[[from gs] rest]|] eqn:Hsearch.
    + rewrite Hinit in Hsearch.
      destruct (search_shape _ _ _ _ Hsearch) as (a & b & -> & -> & Hfrom).
      rewrite (extract_match self _ _ a b); [by eauto|].
      rewrite Hinit. by apply (findall_one _ from).
    + rewrite extract_no_match; [by eauto|].
      rewrite Hinit in *. by apply findall_none.
  - unfold Kimi3.extract_reasoning_content.
    destruct (negb (PyStr.startswith _ _)); [by eauto|].
    cbv zeta. destruct (_ =? _)%Z; by eauto.
Qed.

Lemma batch_never_raises_witness :
  let self := {| Kimi2.model_tokenizer := Some ();
                  Kimi2.start_token := tag_open;
                  Kimi2.end_token := tag_close;
                  Kimi2.reasoning_regex :=
                    {| Kimi2.nodes :=
                         [Kimi2.Literal tag_open; Kimi2.GroupAnyLazy;
                          Kimi2.Literal tag_close; Kimi2.GroupAnyGreedy];
                       Kimi2.dotall := true |} |} in
  ∃ r c, Kimi2.extract_reasoning_content self
           (tag_close ++ tag_open ++ tag_open ++ tag_close ++ tag_close) ()
         = Return (r, c).
Proof.
  intros self.
  exact (proj1 (proj2 (batch_never_raises (fun _ : () => true)
           Return (Some ()) self
           (tag_close ++ tag_open ++ tag_open ++ tag_close ++ tag_close) ()
           eq_refl))).
Defined.

End BatchClaims.

(** * Further properties *)

(** ** Occurrences, prefixes and suffixes *)
Section OccurrenceFacts.
Implicit Types s u v q sub : str.

Lemma default_or_none s : default [] (PyStr.or_none s) = s.
Proof. by destruct s. Qed.

Lemma occurs_at_lookup sub s j k :
  occurs_at sub s j → k < length sub → s !! (j + k) = sub !! k.
Proof.
  intros (l & r & -> & <-) Hk.
  rewrite lookup_app_r by lia.
  replace (length l + k - length l) with k by lia.
  by rewrite lookup_app_l.
Qed.

(** An occurrence that ends inside [u] is an occurrence in [u]. *)
Lemma occurs_at_prefix sub u v j :
  occurs_at sub (u ++ v) j → j + length sub ≤ length u → occurs_at sub u j.
Proof.
  intros (l & r & Heq & <-) Hle.
  exists l, (take (length u - length l - length sub) r). split; [|done].
  apply (f_equal (take (length u))) in Heq.
  rewrite take_app_length in Heq. etrans; [exact Heq|].
  rewrite take_app_ge by lia. f_equal.
  by rewrite take_app_ge by lia.
Qed.

Lemma occurs_at_app_r sub u v j : occurs_at sub u j → occurs_at sub (u ++ v) j.
Proof.
  intros (l & r & -> & <-). exists l, (r ++ v).
  by rewrite <- !app_assoc.
Qed.

(** Occurrences at or after the end of [u] are the occurrences in [v]. *)
Lemma occurs_at_app_shift sub u v i :
  occurs_at sub (u ++ v) (length u + i) ↔ occurs_at sub v i.
Proof.
  split.
  - intros (l & r & Heq & Hl).
    exists (drop (length u) l), r. split; [|rewrite length_drop; lia].
    apply (f_equal (drop (length u))) in Heq.
    rewrite drop_app_length in Heq. rewrite Heq.
    by rewrite drop_app_le by lia.
  - intros (l & r & -> & <-). exists (u ++ l), r.
    by rewrite <- app_assoc, length_app.
Qed.

(** An occurrence that starts inside [u] and runs past its end leaves a
    prefix of [sub] at the end of [u]. *)
Lemma occurs_at_straddle sub u v j :
  occurs_at sub (u ++ v) j → j < length u → length u < j + length sub →
  take (length u - j) sub `suffix_of` u.
Proof.
  intros (l & r & Heq & <-) Hlt Hgt. exists l.
  apply (f_equal (take (length u))) in Heq.
  rewrite take_app_length in Heq. etrans; [exact Heq|].
  rewrite take_app_ge by lia. f_equal.
  by rewrite take_app_le by lia.
Qed.

Lemma suffix_app_short q u v :
  q `suffix_of` u ++ v → length q ≤ length v → q `suffix_of` v.
Proof.
  intros [k Heq] Hle. exists (drop (length u) k).
  apply (f_equal length) in Heq as Hlen. rewrite !length_app in Hlen.
  apply (f_equal (drop (length u))) in Heq.
  rewrite drop_app_length in Heq. rewrite Heq.
  by rewrite drop_app_le by lia.
Qed.

Lemma suffix_app_long q u v :
  q `suffix_of` u ++ v → length v < length q →
  take (length q - length v) q `suffix_of` u.
Proof.
  intros [k Heq] Hlt. exists k.
  apply (f_equal length) in Heq as Hlen. rewrite !length_app in Hlen.
  apply (f_equal (take (length u))) in Heq.
  rewrite take_app_length in Heq. etrans; [exact Heq|].
  rewrite take_app_ge by lia. do 2 f_equal. lia.
Qed.

(** The first occurrence stays the first when text is appended. *)
Lemma find_opt_app sub s v i :
  PyStr.find_opt s sub = Some i → PyStr.find_opt (s ++ v) sub = Some i.
Proof.
  rewrite !find_opt_first. intros [Hocc Hmin]. split.
  - by apply occurs_at_app_r.
  - intros j Hj Hoccj. apply (Hmin j Hj).
    apply occurs_at_prefix with v; [done|].
    apply occurs_at_bound in Hocc. lia.
Qed.

(** The marker '◁' opens the end tag and occurs nowhere else in it; the
    same holds of the start tag. *)
Lemma tag_close_marker k : tag_close !! k = Some 9665%N → k = 0.
Proof. by destruct k as [|[|[|[|[|[|[|[|k]]]]]]]]. Qed.

Lemma tag_open_marker k : tag_open !! k = Some 9665%N → k = 0.
Proof. by destruct k as [|[|[|[|[|[|[|k]]]]]]]. Qed.

End OccurrenceFacts.

(** ** Sessions of the kimi3 streaming machine *)
Section Kimi3Sessions.
Import Kimi3.
Implicit Types (self : parser) (s t delta : str).

Local Abbreviation run st t :=
  (extract_reasoning_content_streaming
     {| _state := st; _delta_accumulator := [] |} [] [] t [] [] []).
Local Abbreviation rc := (fragment reasoning_content).
Local Abbreviation cc := (fragment content).

(** A call depends on the instance's state and on the accumulator
    followed by the chunk, and on nothing else. *)
Lemma streaming_only_combined self pt ct delta i1 i2 i3 :
  extract_reasoning_content_streaming self pt ct delta i1 i2 i3 =
  run (_state self) (_delta_accumulator self ++ delta).
Proof. reflexivity. Qed.

Lemma take_END_length n : n ≤ 8 → length (take n END_TEXT) = n.
Proof. intros Hn. rewrite length_take. change (length END_TEXT) with 8. lia. Qed.

(** In REASONING state, text [A] in front of [X] that neither hides an
    end tag nor lengthens a withheld prefix is emitted as reasoning in
    front of what [X] alone gives. *)
Lemma reasoning_shift A X :
  (∀ j, occurs_at END_TEXT (A ++ X) j → length A ≤ j) →
  (∀ m, 1 ≤ m ≤ 6 → take m END_TEXT `suffix_of` A ++ X →
        take m END_TEXT `suffix_of` X) →
  (run STATE_REASONING (A ++ X)).1 = (run STATE_REASONING X).1 ∧
  rc (run STATE_REASONING (A ++ X)).2 = A ++ rc (run STATE_REASONING X).2 ∧
  cc (run STATE_REASONING (A ++ X)).2 = cc (run STATE_REASONING X).2.
Proof.
  intros K1 K2.
  destruct (PyStr.find_opt X END_TEXT) as [i|] eqn:HX.
  - assert (HAX : PyStr.find_opt (A ++ X) END_TEXT = Some (length A + i)).
    { apply find_opt_first in HX as [Hocc Hmin]. apply find_opt_first. split.
      - by apply occurs_at_app_shift.
      - intros j Hj Hoccj. pose proof (K1 j Hoccj) as Hge.
        apply (Hmin (j - length A)); [lia|].
        apply (occurs_at_app_shift _ A).
        by replace (length A + (j - length A)) with j by lia. }
    rewrite (streaming_reasoning_end _ _ _ X _ _ _ i) by done.
    rewrite (streaming_reasoning_end _ _ _ (A ++ X) _ _ _ (length A + i))
      by done.
    cbn [fst snd _delta_accumulator app fragment reasoning_content content
         default].
    rewrite !default_or_none. split; [done|]. split.
    + by rewrite take_app_add'.
    + by rewrite <- Nat.add_assoc, drop_app_add'.
  - assert (HAX : PyStr.find_opt (A ++ X) END_TEXT = None).
    { apply find_opt_None. intros j Hoccj. pose proof (K1 j Hoccj) as Hge.
      apply find_opt_None with (i := j - length A) in HX. apply HX.
      apply (occurs_at_app_shift _ A).
      by replace (length A + (j - length A)) with j by lia. }
    destruct (List.find (fun p => PyStr.endswith X p) END_PREFIXES)
      as [q|] eqn:Hq.
    + pose proof Hq as [(m & Hm & ->)%END_PREFIXES_elem Hsuf]%END_PREFIXES_find.
      assert (HAq : List.find (fun p => PyStr.endswith (A ++ X) p) END_PREFIXES
                    = Some (take m END_TEXT)).
      { apply END_PREFIXES_loop; [done|]. by apply suffix_app_r. }
      rewrite (streaming_reasoning_hold _ _ _ X _ _ _ (take m END_TEXT)) by done.
      rewrite (streaming_reasoning_hold _ _ _ (A ++ X) _ _ _ (take m END_TEXT))
        by done.
      cbn [fst snd _delta_accumulator app fragment reasoning_content content
           default].
      split; [done|]. split; [|done].
      apply suffix_length in Hsuf. rewrite length_app.
      replace (length A + length X - length (take m END_TEXT))
        with (length A + (length X - length (take m END_TEXT))) by lia.
      by rewrite take_app_add'.
    + assert (HAq : List.find (fun p => PyStr.endswith (A ++ X) p) END_PREFIXES
                    = None).
      { destruct (List.find (fun p => PyStr.endswith (A ++ X) p) END_PREFIXES)
          as [q|] eqn:HAq; [|done].
        apply END_PREFIXES_find in HAq
          as [(m & Hm & ->)%END_PREFIXES_elem Hsuf].
        apply K2 in Hsuf; [|done]. apply endswith_suffix in Hsuf.
        apply find_none with (x := take m END_TEXT) in Hq; [congruence|].
        apply list_elem_of_In, END_PREFIXES_elem. eauto. }
      rewrite (streaming_reasoning_all _ _ _ X) by done.
      rewrite (streaming_reasoning_all _ _ _ (A ++ X)) by done.
      done.
Qed.

(** No member of [END_PREFIXES] ends [t] when the loop finds none. *)
Lemma END_PREFIXES_none t m :
  List.find (fun p => PyStr.endswith t p) END_PREFIXES = None →
  1 ≤ m ≤ 6 → ¬ take m END_TEXT `suffix_of` t.
Proof.
  intros Hnone Hm Hsuf%endswith_suffix.
  apply find_none with (x := take m END_TEXT) in Hnone; [congruence|].
  apply list_elem_of_In, END_PREFIXES_elem. eauto.
Qed.

(** A withheld prefix of the end tag begins with the marker, so no end
    tag and no longer prefix can begin before it. *)
Lemma withheld_blocks A n c2 :
  1 ≤ n ≤ 6 →
  (∀ i, ¬ occurs_at END_TEXT (A ++ take n END_TEXT) i) →
  (∀ j, occurs_at END_TEXT (A ++ take n END_TEXT ++ c2) j → length A ≤ j) ∧
  (∀ m, 1 ≤ m ≤ 6 →
        take m END_TEXT `suffix_of` A ++ take n END_TEXT ++ c2 →
        take m END_TEXT `suffix_of` take n END_TEXT ++ c2).
Proof.
  intros Hn Hno.
  assert (Hmark : (A ++ take n END_TEXT ++ c2) !! length A = Some 9665%N).
  { rewrite lookup_app_r, Nat.sub_diag by lia.
    destruct n as [|n]; [lia|]. reflexivity. }
  split.
  - intros j Hocc. apply Nat.nlt_ge. intros Hlt.
    destruct (decide (j + length END_TEXT ≤ length (A ++ take n END_TEXT)))
      as [Hin|Hout].
    + apply (Hno j). apply occurs_at_prefix with c2; [|done].
      by rewrite <- app_assoc.
    + rewrite length_app, take_END_length in Hout by lia.
      pose proof (occurs_at_lookup _ _ _ (length A - j) Hocc) as Hlook.
      replace (j + (length A - j)) with (length A) in Hlook by lia.
      rewrite Hmark in Hlook.
      symmetry in Hlook. apply tag_close_marker in Hlook; lia.
  - intros m Hm Hsuf.
    destruct (decide (m ≤ length (take n END_TEXT ++ c2))) as [Hle|Hgt].
    + apply suffix_app_short with A; [done|].
      by rewrite take_END_length by lia.
    + exfalso. destruct Hsuf as [k Heq].
      apply (f_equal length) in Heq as Hlen.
      rewrite !length_app, !take_END_length in Hlen by lia.
      rewrite length_app, take_END_length in Hgt by lia.
      rewrite Heq in Hmark.
      rewrite lookup_app_r, lookup_take_lt in Hmark by lia.
      apply tag_close_marker in Hmark. lia.
Qed.

(** Text ending in no prefix of the end tag lets no end tag begin
    inside it. *)
Lemma clean_end_blocks t c2 :
  (∀ i, ¬ occurs_at END_TEXT t i) →
  (∀ m, 1 ≤ m ≤ 7 → ¬ take m END_TEXT `suffix_of` t) →
  (∀ j, occurs_at END_TEXT (t ++ c2) j → length t ≤ j) ∧
  (∀ m, 1 ≤ m ≤ 6 → take m END_TEXT `suffix_of` t ++ c2 →
        take m END_TEXT `suffix_of` c2).
Proof.
  intros Hno Hclean. split.
  - intros j Hocc. apply Nat.nlt_ge. intros Hlt.
    destruct (decide (j + length END_TEXT ≤ length t)) as [Hin|Hout].
    + apply (Hno j). by apply occurs_at_prefix with c2.
    + change (length END_TEXT) with 8 in Hout.
      apply (Hclean (length t - j)); [lia|].
      apply occurs_at_straddle with c2; [done..|].
      change (length END_TEXT) with 8. lia.
  - intros m Hm Hsuf.
    destruct (decide (m ≤ length c2)) as [Hle|Hgt].
    + apply suffix_app_short with t; [done|].
      by rewrite take_END_length by lia.
    + exfalso. apply suffix_app_long in Hsuf;
        [|rewrite take_END_length by lia; lia].
      rewrite take_END_length, take_take in Hsuf by lia.
      rewrite Nat.min_l in Hsuf by lia.
      apply (Hclean (m - length c2)); [lia | done].
Qed.

(** Two chunks in REASONING state give what their concatenation gives,
    unless the first ends, unterminated, in the first seven characters
    of the end tag. *)
Lemma reasoning_merge t c2 :
  ¬ ((∀ i, ¬ occurs_at END_TEXT t i) ∧ take 7 END_TEXT `suffix_of` t) →
  (extract_reasoning_content_streaming
     (run STATE_REASONING t).1 [] [] c2 [] [] []).1
    = (run STATE_REASONING (t ++ c2)).1 ∧
  rc (run STATE_REASONING t).2 ++
    rc (extract_reasoning_content_streaming
          (run STATE_REASONING t).1 [] [] c2 [] [] []).2
    = rc (run STATE_REASONING (t ++ c2)).2 ∧
  cc (run STATE_REASONING t).2 ++
    cc (extract_reasoning_content_streaming
          (run STATE_REASONING t).1 [] [] c2 [] [] []).2
    = cc (run STATE_REASONING (t ++ c2)).2.
Proof.
  intros Hsafe.
  destruct (PyStr.find_opt t END_TEXT) as [i|] eqn:Ht.
  - pose proof (find_opt_app _ _ c2 _ Ht) as Htc.
    apply find_opt_first in Ht as Hfirst.
    destruct Hfirst as [Hb%occurs_at_bound _].
    rewrite (streaming_reasoning_end _ _ _ t _ _ _ i) by done.
    rewrite (streaming_reasoning_end _ _ _ (t ++ c2) _ _ _ i) by done.
    cbn [fst snd]. rewrite streaming_output by done.
    cbn [fst snd _state _delta_accumulator app fragment reasoning_content
         content default].
    rewrite !default_or_none, app_nil_r.
    split; [done|]. split.
    + by rewrite take_app_le by lia.
    + by rewrite drop_app_le by lia.
  - pose proof (proj1 (find_opt_None _ _) Ht) as Hno.
    destruct (List.find (fun p => PyStr.endswith t p) END_PREFIXES)
      as [p|] eqn:Hp.
    + pose proof Hp as [(n & Hn & ->)%END_PREFIXES_elem [A HA]]%END_PREFIXES_find.
      rewrite (streaming_reasoning_hold _ _ _ t _ _ _ (take n END_TEXT)) by done.
      cbn [fst snd]. rewrite streaming_only_combined.
      cbn [_state _delta_accumulator app].
      subst t. rewrite length_app, Nat.add_sub, take_app_length.
      destruct (withheld_blocks A n c2 Hn Hno) as [K1 K2].
      destruct (reasoning_shift A (take n END_TEXT ++ c2) K1 K2)
        as (H1 & H2 & H3).
      rewrite <- !app_assoc. rewrite H1, H2, H3.
      by cbn [fragment reasoning_content content default app].
    + rewrite (streaming_reasoning_all _ _ _ t) by done.
      cbn [fst snd]. rewrite streaming_only_combined.
      cbn [_state _delta_accumulator app].
      assert (Hclean : ∀ m, 1 ≤ m ≤ 7 → ¬ take m END_TEXT `suffix_of` t).
      { intros m Hm Hsuf. destruct (decide (m = 7)) as [->|Hne].
        - by apply Hsafe.
        - apply (END_PREFIXES_none t m Hp); [lia | done]. }
      destruct (clean_end_blocks t c2 Hno Hclean) as [K1 K2].
      destruct (reasoning_shift t c2 K1 K2) as (H1 & H2 & H3).
      rewrite H1, H2, H3.
      by cbn [fragment reasoning_content content default app].
Qed.

Lemma contains_false sub s :
  PyStr.contains sub s = false ↔ ∀ i, ¬ occurs_at sub s i.
Proof.
  unfold PyStr.contains. rewrite <- find_opt_None.
  by destruct (PyStr.find_opt s sub).
Qed.

Lemma unsafe_cutb_spec st t : unsafe_cutb st t = true ↔ unsafe_cut st t.
Proof.
  unfold unsafe_cutb, unsafe_cut.
  destruct (Z.eqb_spec st STATE_INITIAL) as [->|Hi].
  - rewrite orb_true_iff, !andb_true_iff, bool_decide_eq_true,
      negb_true_iff, contains_false, endswith_suffix, startswith_prefix.
    split.
    + intros [Ht|[[[rest ->] Hno] Hsuf]]; left; (split; [done|]); [by left|].
      right. exists rest. by rewrite drop_app_length in Hno, Hsuf.
    + intros [[_ [Ht|(rest & -> & Hno & Hsuf)]]|[Hst _]];
        [by left| |discriminate Hst].
      right. rewrite drop_app_length. split; [split|]; [by exists rest|done..].
  - destruct (Z.eqb_spec st STATE_REASONING) as [->|Hr].
    + rewrite andb_true_iff, negb_true_iff, contains_false, endswith_suffix.
      split; [by right | by intros [[Hst _]|[_ H]]].
    + split; [done | by intros [[? _]|[? _]]].
Qed.

Lemma prefix_take (l1 l2 : str) : l1 `prefix_of` l2 → l1 = take (length l1) l2.
Proof. intros [k ->]. by rewrite take_app_length. Qed.

Lemma START_PREFIXES_prefix t c2 :
  t ++ c2 ∈ START_PREFIXES → t ∈ START_PREFIXES.
Proof.
  intros (n & Hn & Heq)%START_PREFIXES_elem. apply START_PREFIXES_elem.
  exists (length t). apply (f_equal length) in Heq as Hlen.
  rewrite length_app, length_take in Hlen. split; [lia|].
  apply (f_equal (take (length t))) in Heq.
  rewrite take_app_length, take_take in Heq.
  by rewrite Nat.min_l in Heq by lia.
Qed.

(** Text that is neither a buffered prefix nor the six-character prefix
    of the start tag cannot grow into the start tag. *)
Lemma not_start_stays t c2 :
  PyStr.startswith t START_TEXT = false →
  t ∉ START_PREFIXES →
  t ≠ take 6 START_TEXT →
  PyStr.startswith (t ++ c2) START_TEXT = false.
Proof.
  intros Hsw Hnot H6. apply not_true_is_false. intros Hp%startswith_prefix.
  destruct (prefix_weak_total START_TEXT t (t ++ c2)) as [H|H];
    [done | by exists c2 | |].
  - apply startswith_prefix in H. congruence.
  - pose proof (prefix_length _ _ H) as Hlen.
    change (length START_TEXT) with 7 in Hlen.
    apply prefix_take in H.
    destruct (decide (length t = 7)) as [H7|H7].
    { rewrite H7 in H. rewrite H in Hsw. by vm_compute in Hsw. }
    destruct (decide (length t = 6)) as [H6'|H6'].
    { by rewrite H6' in H. }
    apply Hnot, START_PREFIXES_elem. exists (length t). split; [lia | done].
Qed.

(** The same for one call followed by another against one call on the
    concatenation, from any state. *)
Lemma run_merge st t c2 :
  ¬ unsafe_cut st t →
  (extract_reasoning_content_streaming (run st t).1 [] [] c2 [] [] []).1
    = (run st (t ++ c2)).1 ∧
  rc (run st t).2 ++
    rc (extract_reasoning_content_streaming (run st t).1 [] [] c2 [] [] []).2
    = rc (run st (t ++ c2)).2 ∧
  cc (run st t).2 ++
    cc (extract_reasoning_content_streaming (run st t).1 [] [] c2 [] [] []).2
    = cc (run st (t ++ c2)).2.
Proof.
  intros Hsafe.
  destruct (decide (st = STATE_INITIAL)) as [->|Hi];
    [|destruct (decide (st = STATE_REASONING)) as [->|Hr]].
  - destruct (PyStr.startswith t START_TEXT) eqn:Hsw.
    + pose proof Hsw as [rest ->]%startswith_prefix.
      rewrite (streaming_initial_start _ _ _ (START_TEXT ++ rest)) by done.
      assert (Hsw2 : PyStr.startswith ((START_TEXT ++ rest) ++ c2) START_TEXT
                     = true)
        by (rewrite <- app_assoc; apply startswith_app).
      rewrite (streaming_initial_start _ _ _ ((START_TEXT ++ rest) ++ c2))
        by done.
      cbn [_delta_accumulator app]. rewrite <- app_assoc.
      change (START_TEXT ++ rest) with ([] ++ START_TEXT ++ rest).
      rewrite !drop_app_length. cbn [app].
      apply reasoning_merge. intros [Hno Hsuf]. apply Hsafe. left.
      split; [done|]. right. by exists rest.
    + destruct (decide (t ∈ START_PREFIXES)) as [Hin|Hnot].
      * rewrite (streaming_initial_wait _ _ _ t) by done.
        cbn [fst snd]. rewrite streaming_only_combined.
        by cbn [_state _delta_accumulator app fragment].
      * rewrite (streaming_initial_output _ _ _ t) by done.
        rewrite (streaming_initial_output _ _ _ (t ++ c2)).
        -- cbn [fst snd]. rewrite streaming_output by done.
           cbn [fst snd _state _delta_accumulator app fragment
                reasoning_content content default].
           by rewrite !default_or_none.
        -- done.
        -- apply (not_start_stays t c2); [done..|].
           intros H6. apply Hsafe. left. split; [done | by left].
        -- intros Hin. apply Hnot. by apply (START_PREFIXES_prefix t c2).
  - apply reasoning_merge. intros [Hno Hsuf]. apply Hsafe. by right.
  - rewrite (streaming_output _ _ _ t) by done.
    rewrite (streaming_output _ _ _ (t ++ c2)) by done.
    cbn [fst snd]. rewrite streaming_output by done.
    cbn [fst snd _state _delta_accumulator app fragment
         reasoning_content content default].
    by rewrite !default_or_none.
Qed.

Lemma emitted_cons f o outs :
  emitted f (o :: outs) = fragment f o ++ emitted f outs.
Proof. done. Qed.

(** The running texts passed along by the caller play no part. *)
Lemma feed_previous_text self pt pt' chunks :
  feed self pt chunks = feed self pt' chunks.
Proof.
  revert self pt pt'. induction chunks as [|c cs IH]; intros self pt pt'.
  - done.
  - rewrite !feed_cons. cbv zeta.
    rewrite (streaming_only_combined self pt).
    rewrite (streaming_only_combined self pt').
    by rewrite (IH _ (pt ++ c) (pt' ++ c)).
Qed.

Lemma feed_cons_run self pt c cs :
  feed self pt (c :: cs) =
  ((feed (run (_state self) (_delta_accumulator self ++ c)).1 [] cs).1,
   (run (_state self) (_delta_accumulator self ++ c)).2 ::
   (feed (run (_state self) (_delta_accumulator self ++ c)).1 [] cs).2).
Proof.
  rewrite feed_cons. cbv zeta. rewrite streaming_only_combined.
  by rewrite (feed_previous_text _ (pt ++ c) []).
Qed.

(** The first two chunks of a session can be delivered as one. *)
Lemma feed_merge_head self pt c1 c2 more :
  ¬ unsafe_cut (_state self) (_delta_accumulator self ++ c1) →
  (feed self pt (c1 :: c2 :: more)).1 = (feed self pt ((c1 ++ c2) :: more)).1 ∧
  emitted reasoning_content (feed self pt (c1 :: c2 :: more)).2
    = emitted reasoning_content (feed self pt ((c1 ++ c2) :: more)).2 ∧
  emitted content (feed self pt (c1 :: c2 :: more)).2
    = emitted content (feed self pt ((c1 ++ c2) :: more)).2.
Proof.
  intros Hsafe.
  destruct (run_merge _ _ c2 Hsafe) as (H1 & H2 & H3).
  rewrite (feed_cons_run self pt c1), (feed_cons_run self pt (c1 ++ c2)).
  rewrite (feed_cons_run _ [] c2). cbn [fst snd].
  rewrite <- streaming_only_combined with (pt := []) (ct := [])
    (i1 := []) (i2 := []) (i3 := []).
  rewrite !emitted_cons, !app_assoc.
  rewrite <- (app_assoc _ c1 c2), H1, H2, H3.
  by rewrite <- !(app_assoc _ c1 c2).
Qed.

(** X1: chunk-boundary invariance at safe cuts.  A session delivering
    a text in any number of chunks leaves the instance as, and emits the
    reasoning and the content that, one call on the whole text does,
    provided no chunk boundary is an unsafe cut: right after the first
    six characters of the start tag at the start of the text, or right
    after the first seven characters of an end tag in an unterminated
    reasoning span. *)
Theorem kimi3_chunking_invariance_at_safe_cuts self pt (chunks : list str) :
  chunks ≠ [] →
  (∀ k, 0 < k < length chunks →
        ¬ unsafe_cut (_state self)
            (_delta_accumulator self ++ concat (take k chunks))) →
  (feed self pt chunks).1 = (feed self pt [concat chunks]).1 ∧
  emitted reasoning_content (feed self pt chunks).2
    = emitted reasoning_content (feed self pt [concat chunks]).2 ∧
  emitted content (feed self pt chunks).2
    = emitted content (feed self pt [concat chunks]).2.
Proof.
  destruct chunks as [|c1 more]; [done|]. intros _. revert c1.
  induction more as [|c2 more IH]; intros c1 Hsafe.
  - simpl concat. by rewrite app_nil_r.
  - destruct (feed_merge_head self pt c1 c2 more) as (H1 & H2 & H3).
    { specialize (Hsafe 1). simpl in Hsafe. rewrite app_nil_r in Hsafe.
      apply Hsafe. lia. }
    destruct (IH (c1 ++ c2)) as (I1 & I2 & I3).
    { intros k Hk. destruct k as [|k]; [lia|].
      specialize (Hsafe (S (S k))). simpl in Hsafe, Hk |- *.
      rewrite <- app_assoc. apply Hsafe. lia. }
    rewrite H1, H2, H3, I1, I2, I3. simpl concat.
    by rewrite <- !app_assoc.
Qed.

Lemma kimi3_chunking_invariance_at_safe_cuts_witness :
  let fresh := {| _state := STATE_INITIAL; _delta_accumulator := [] |} in
  let chunks := [take 3 START_TEXT;
                 drop 3 START_TEXT ++ [97%N] ++ take 3 END_TEXT;
                 drop 3 END_TEXT ++ [98%N]] in
  emitted reasoning_content (feed fresh [] chunks).2 = [97%N] ∧
  emitted content (feed fresh [] chunks).2 = [98%N].
Proof.
  intros fresh chunks.
  destruct (kimi3_chunking_invariance_at_safe_cuts fresh [] chunks)
    as (_ & H2 & H3).
  - discriminate.
  - intros k Hk. rewrite <- unsafe_cutb_spec.
    destruct k as [|[|[|k]]]; [simpl in Hk; lia | by vm_compute..
                              | simpl in Hk; lia].
  - rewrite H2, H3. split; reflexivity.
Defined.

(** What one call in REASONING state does with its text: it is split
    around the end tag, or emitted up to what is withheld. *)
Lemma reasoning_step_conserves X :
  (_state (run STATE_REASONING X).1 = STATE_OUTPUT ∧
   _delta_accumulator (run STATE_REASONING X).1 = [] ∧
   X = rc (run STATE_REASONING X).2 ++ END_TEXT ++
       cc (run STATE_REASONING X).2) ∨
  (_state (run STATE_REASONING X).1 = STATE_REASONING ∧
   X = rc (run STATE_REASONING X).2 ++
       _delta_accumulator (run STATE_REASONING X).1 ∧
   cc (run STATE_REASONING X).2 = []).
Proof.
  destruct (PyStr.find_opt X END_TEXT) as [i|] eqn:HX.
  - left. rewrite (streaming_reasoning_end _ _ _ X _ _ _ i) by done.
    cbn [fst snd _state _delta_accumulator app fragment reasoning_content
         content default].
    rewrite default_or_none. split; [done|]. split; [done|].
    apply occurs_at_split. by apply find_opt_first in HX as [? _].
  - right.
    destruct (List.find (fun p => PyStr.endswith X p) END_PREFIXES)
      as [p|] eqn:Hp.
    + rewrite (streaming_reasoning_hold _ _ _ X _ _ _ p) by done.
      cbn [fst snd _state _delta_accumulator app fragment reasoning_content
           content default].
      split; [done|]. split; [|done].
      apply END_PREFIXES_find in Hp as [_ [k ->]].
      by rewrite length_app, Nat.add_sub, take_app_length.
    + rewrite (streaming_reasoning_all _ _ _ X) by done.
      cbn [fst snd _state _delta_accumulator app fragment reasoning_content
           content default].
      by rewrite app_nil_r.
Qed.

Lemma conserved_step self R C T delta :
  conserved self R C T →
  conserved (run (_state self) (_delta_accumulator self ++ delta)).1
    (R ++ rc (run (_state self) (_delta_accumulator self ++ delta)).2)
    (C ++ cc (run (_state self) (_delta_accumulator self ++ delta)).2)
    (T ++ delta).
Proof.
  intros [(Hst & -> & -> & ->)|[(Hst & -> & ->)|(Hst & Hacc & Hout)]];
    rewrite Hst.
  - set (X := _delta_accumulator self ++ delta).
    destruct (PyStr.startswith X START_TEXT) eqn:Hsw.
    + pose proof Hsw as [rest Hrest]%startswith_prefix.
      rewrite (streaming_initial_start _ _ _ X) by done.
      cbn [_delta_accumulator app]. rewrite Hrest, drop_app_length.
      destruct (reasoning_step_conserves rest)
        as [(H1 & H2 & H3)|(H1 & H2 & H3)].
      * right; right. split; [done|]. split; [done|]. right.
        by rewrite <- H3.
      * right; left. split; [done|]. split; [|done].
        by rewrite <- H2.
    + destruct (decide (X ∈ START_PREFIXES)) as [Hin|Hnot].
      * rewrite (streaming_initial_wait _ _ _ X) by done. by left.
      * rewrite (streaming_initial_output _ _ _ X) by done.
        right; right.
        cbn [fst snd _state _delta_accumulator app fragment
             reasoning_content content default].
        rewrite default_or_none. by eauto.
  - destruct (reasoning_step_conserves (_delta_accumulator self ++ delta))
      as [(H1 & H2 & H3)|(H1 & H2 & H3)].
    + right; right. split; [done|]. split; [done|]. right.
      cbn [app]. rewrite <- !app_assoc. by do 2 f_equal.
    + right; left. split; [done|]. split; [|by rewrite H3].
      rewrite <- !app_assoc. by do 2 f_equal.
  - rewrite streaming_output by done.
    cbn [fst snd _state _delta_accumulator app fragment reasoning_content
         content default].
    rewrite default_or_none, Hacc, app_nil_r. cbn [app].
    right; right. split; [done|]. split; [done|].
    destruct Hout as [[-> ->] | ->]; [by left | right].
    by rewrite <- !app_assoc.
Qed.

Lemma conserved_feed chunks self pt R C T :
  conserved self R C T →
  conserved (feed self pt chunks).1
    (R ++ emitted reasoning_content (feed self pt chunks).2)
    (C ++ emitted content (feed self pt chunks).2)
    (T ++ concat chunks).
Proof.
  revert self pt R C T.
  induction chunks as [|c cs IH]; intros self pt R C T Hinv.
  - simpl. by rewrite !app_nil_r.
  - rewrite feed_cons_run. cbn [fst snd].
    rewrite !emitted_cons, !app_assoc. simpl concat. rewrite app_assoc.
    by apply IH, conserved_step.
Qed.

(** X2: conservation of text.  For a newly constructed instance and any
    chunks, nothing is lost, duplicated or reordered: either everything
    is still buffered as a start-tag prefix; or the text is the start
    tag, the reasoning emitted and the withheld suffix; or the state is
    OUTPUT, nothing is withheld, and the text is the content emitted, or
    the start tag, the reasoning, the end tag and the content. *)
Theorem kimi3_streaming_conserves_text {Tokenizer}
    (super_init : option Tokenizer → py (option Tokenizer)) tok self
    (pt : str) (chunks : list str) :
  __init__ super_init tok = Return self →
  conserved (feed self pt chunks).1
    (emitted reasoning_content (feed self pt chunks).2)
    (emitted content (feed self pt chunks).2)
    (concat chunks).
Proof.
  intros ->%init_fresh.
  apply (conserved_feed chunks _ pt [] [] []). by left.
Qed.

Lemma kimi3_streaming_conserves_text_witness :
  conserved
    (feed {| _state := STATE_INITIAL; _delta_accumulator := [] |} []
       [START_TEXT ++ [97%N] ++ take 7 END_TEXT; drop 7 END_TEXT ++ [98%N]]).1
    ([97%N] ++ END_TEXT ++ [98%N]) []
    (START_TEXT ++ [97%N] ++ END_TEXT ++ [98%N]).
Proof.
  exact (kimi3_streaming_conserves_text (Tokenizer := ()) Return None _ []
           [START_TEXT ++ [97%N] ++ take 7 END_TEXT; drop 7 END_TEXT ++ [98%N]]
           eq_refl).
Defined.

Lemma run_state st t :
  (STATE_INITIAL ≤ st ≤ STATE_OUTPUT)%Z →
  (st ≤ _state (run st t).1 ≤ STATE_OUTPUT)%Z.
Proof.
  unfold STATE_INITIAL, STATE_OUTPUT. intros Hst.
  assert (HR : ∀ X, (1 ≤ _state (run STATE_REASONING X).1 ≤ 2)%Z).
  { intros X. destruct (reasoning_step_conserves X) as [(-> & _)|(-> & _)];
      unfold STATE_OUTPUT, STATE_REASONING; lia. }
  destruct (decide (st = STATE_INITIAL)) as [->|Hi];
    [|destruct (decide (st = STATE_REASONING)) as [->|Hr]].
  - destruct (PyStr.startswith t START_TEXT) eqn:Hsw.
    + rewrite (streaming_initial_start _ _ _ t) by done.
      specialize (HR (drop (length START_TEXT) t)).
      cbn [_delta_accumulator app]. unfold STATE_INITIAL. lia.
    + destruct (decide (t ∈ START_PREFIXES)) as [Hin|Hnot].
      * rewrite (streaming_initial_wait _ _ _ t) by done.
        cbn [fst _state]. unfold STATE_INITIAL. lia.
      * rewrite (streaming_initial_output _ _ _ t) by done.
        cbn [fst _state]. unfold STATE_INITIAL, STATE_OUTPUT. lia.
  - specialize (HR t). unfold STATE_REASONING in *. lia.
  - rewrite streaming_output by done. cbn [fst _state]. lia.
Qed.

(** X3: the state only moves forward.  From INITIAL, REASONING or
    OUTPUT, a session never ends in an earlier state than it began in,
    and never leaves these three; OUTPUT is therefore final. *)
Theorem kimi3_state_moves_forward self pt (chunks : list str) :
  (STATE_INITIAL ≤ _state self ≤ STATE_OUTPUT)%Z →
  (_state self ≤ _state (feed self pt chunks).1 ≤ STATE_OUTPUT)%Z.
Proof.
  revert self pt. induction chunks as [|c cs IH]; intros self pt Hst.
  - simpl. lia.
  - rewrite feed_cons_run. cbn [fst].
    pose proof (run_state (_state self) (_delta_accumulator self ++ c) Hst)
      as Hstep.
    assert (Hst' : (STATE_INITIAL ≤
                    _state (run (_state self) (_delta_accumulator self ++ c)).1
                    ≤ STATE_OUTPUT)%Z) by lia.
    specialize (IH _ [] Hst'). lia.
Qed.

Lemma kimi3_state_moves_forward_witness :
  (STATE_REASONING ≤
   _state (feed {| _state := STATE_REASONING; _delta_accumulator := [] |} []
             [[97%N]; START_TEXT; [98%N]]).1
   ≤ STATE_OUTPUT)%Z.
Proof.
  apply (kimi3_state_moves_forward
           {| _state := STATE_REASONING; _delta_accumulator := [] |} []
           [[97%N]; START_TEXT; [98%N]]).
  by vm_compute.
Defined.

(** X4: OUTPUT passes everything through.  Once in OUTPUT state with
    nothing withheld, every chunk is returned as content exactly as it
    came (start and end tags included), no reasoning is ever returned
    again, and the instance does not change. *)
Theorem kimi3_output_passes_through self pt (chunks : list str) :
  _state self = STATE_OUTPUT →
  _delta_accumulator self = [] →
  (feed self pt chunks).1 = self ∧
  (feed self pt chunks).2 =
    (fun c => Some {| reasoning_content := None;
                      content := PyStr.or_none c |}) <$> chunks ∧
  emitted reasoning_content (feed self pt chunks).2 = [] ∧
  emitted content (feed self pt chunks).2 = concat chunks.
Proof.
  intros Hst Hacc. destruct self as [st acc]. simpl in Hst, Hacc. subst.
  revert pt. induction chunks as [|c cs IH]; intros pt.
  - done.
  - rewrite feed_cons_run. cbn [_state _delta_accumulator app].
    rewrite streaming_output by done.
    cbn [fst snd _state _delta_accumulator app].
    destruct (IH []) as (I1 & I2 & I3 & I4).
    rewrite !emitted_cons, I1, I2. rewrite I2 in I3, I4.
    rewrite I3, I4.
    cbn [fragment reasoning_content content default app].
    by rewrite default_or_none.
Qed.

Lemma kimi3_output_passes_through_witness :
  emitted content
    (feed {| _state := STATE_OUTPUT; _delta_accumulator := [] |} []
       [START_TEXT; [97%N]; END_TEXT]).2
  = START_TEXT ++ [97%N] ++ END_TEXT.
Proof.
  exact (proj2 (proj2 (proj2
    (kimi3_output_passes_through
       {| _state := STATE_OUTPUT; _delta_accumulator := [] |} []
       [START_TEXT; [97%N]; END_TEXT] eq_refl eq_refl)))).
Defined.

(** X16: short start-tag prefixes are buffered.  In INITIAL state,
    when the accumulator followed by the chunk is one of the first five
    prefixes of the start tag (the empty one included), the call returns
    None and keeps that text for the next call. *)
Theorem kimi3_buffers_short_start_prefix self pt ct delta i1 i2 i3 n :
  _state self = STATE_INITIAL →
  n ≤ 5 →
  _delta_accumulator self ++ delta = take n START_TEXT →
  extract_reasoning_content_streaming self pt ct delta i1 i2 i3 =
  ({| _state := STATE_INITIAL; _delta_accumulator := take n START_TEXT |},
   None).
Proof.
  intros Hst Hn Hc. rewrite streaming_only_combined, Hst, Hc.
  rewrite (streaming_initial_wait _ _ _ (take n START_TEXT)); [done..| |].
  - cbn [_delta_accumulator app]. apply startswith_short.
    rewrite length_take. change (length START_TEXT) with 7. lia.
  - cbn [_delta_accumulator app]. apply START_PREFIXES_elem. by eauto.
Qed.

Lemma kimi3_buffers_short_start_prefix_witness :
  extract_reasoning_content_streaming
    {| _state := STATE_INITIAL; _delta_accumulator := take 2 START_TEXT |}
    [] [] (take 3 (drop 2 START_TEXT)) [] [] [] =
  ({| _state := STATE_INITIAL; _delta_accumulator := take 5 START_TEXT |},
   None).
Proof.
  apply (kimi3_buffers_short_start_prefix
           {| _state := STATE_INITIAL;
              _delta_accumulator := take 2 START_TEXT |}
           [] [] (take 3 (drop 2 START_TEXT)) [] [] [] 5).
  - reflexivity.
  - lia.
  - reflexivity.
Defined.

(** X17: short end-tag prefixes are withheld.  In REASONING state,
    when the accumulator followed by the chunk holds no end tag and
    ends with the first [n] characters of the end tag, for [n] from one
    to six, the call withholds exactly these characters and returns the
    text before them as reasoning, with no content. *)
Theorem kimi3_withholds_short_end_prefix self pt ct delta i1 i2 i3 n A :
  _state self = STATE_REASONING →
  1 ≤ n ≤ 6 →
  _delta_accumulator self ++ delta = A ++ take n END_TEXT →
  (∀ i, ¬ occurs_at END_TEXT (A ++ take n END_TEXT) i) →
  extract_reasoning_content_streaming self pt ct delta i1 i2 i3 =
  ({| _state := STATE_REASONING; _delta_accumulator := take n END_TEXT |},
   Some {| reasoning_content := Some A; content := None |}).
Proof.
  intros Hst Hn Hc Hno. rewrite streaming_only_combined, Hst, Hc.
  rewrite (streaming_reasoning_hold _ _ _ (A ++ take n END_TEXT) _ _ _
             (take n END_TEXT)); [|done|by apply find_opt_None|].
  - cbn [_delta_accumulator app].
    by rewrite length_app, Nat.add_sub, take_app_length.
  - apply END_PREFIXES_loop; [done | by exists A].
Qed.

Lemma kimi3_withholds_short_end_prefix_witness :
  extract_reasoning_content_streaming
    {| _state := STATE_REASONING; _delta_accumulator := [] |}
    [] [] ([97%N] ++ take 6 END_TEXT) [] [] [] =
  ({| _state := STATE_REASONING; _delta_accumulator := take 6 END_TEXT |},
   Some {| reasoning_content := Some [97%N]; content := None |}).
Proof.
  apply (kimi3_withholds_short_end_prefix
           {| _state := STATE_REASONING; _delta_accumulator := [] |}
           [] [] ([97%N] ++ take 6 END_TEXT) [] [] [] 6 [97%N]).
  - reflexivity.
  - lia.
  - reflexivity.
  - apply find_opt_None. reflexivity.
Defined.

(** *** The batch call of kimi3, branch by branch *)

Lemma batch_no_start {Request} s (request : Request) :
  PyStr.startswith s START_TEXT = false →
  extract_reasoning_content s request = Return (None, Some s).
Proof. intros Hsw. unfold extract_reasoning_content. by rewrite Hsw. Qed.

Lemma batch_unterminated {Request} rest (request : Request) :
  PyStr.find_opt rest END_TEXT = None →
  extract_reasoning_content (START_TEXT ++ rest) request
  = Return (Some rest, None).
Proof.
  intros Hfind. unfold extract_reasoning_content.
  rewrite startswith_app. cbn [negb]. unfold START_TEXT_LENGTH.
  rewrite slice_from_nat, drop_app_length.
  by rewrite (find_None _ _ Hfind).
Qed.

Lemma batch_split {Request} rest (request : Request) i :
  PyStr.find_opt rest END_TEXT = Some i →
  extract_reasoning_content (START_TEXT ++ rest) request
  = Return (PyStr.or_none (take i rest),
            PyStr.or_none (drop (i + length END_TEXT) rest)).
Proof.
  intros Hfind. unfold extract_reasoning_content.
  rewrite startswith_app. cbn [negb]. unfold START_TEXT_LENGTH.
  rewrite slice_from_nat, drop_app_length.
  rewrite (find_Some _ _ _ Hfind).
  destruct (Z.eqb_spec (Z.of_nat i) (-1)) as [?|_]; [lia|].
  unfold END_TEXT_LENGTH.
  by rewrite slice_to_nat, <- Nat2Z.inj_add, slice_from_nat.
Qed.

(** X5: one chunk against the batch call.  A text fed as a single chunk
    to a fresh instance gives the batch result, except for what the
    call withholds: the batch reasoning is the reasoning emitted
    followed by the end-tag prefix withheld, and the batch content is
    the content emitted followed by the start-tag prefix buffered. *)
Theorem kimi3_single_chunk_against_batch {Request} s (request : Request) :
  ∃ r c,
    extract_reasoning_content s request = Return (r, c) ∧
    default [] r =
      rc (run STATE_INITIAL s).2 ++
      (if decide (_state (run STATE_INITIAL s).1 = STATE_REASONING)
       then _delta_accumulator (run STATE_INITIAL s).1 else []) ∧
    default [] c =
      cc (run STATE_INITIAL s).2 ++
      (if decide (_state (run STATE_INITIAL s).1 = STATE_INITIAL)
       then _delta_accumulator (run STATE_INITIAL s).1 else []).
Proof.
  destruct (PyStr.startswith s START_TEXT) eqn:Hsw.
  - pose proof Hsw as [rest ->]%startswith_prefix.
    rewrite (streaming_initial_start _ _ _ (START_TEXT ++ rest)) by done.
    cbn [_delta_accumulator app]. rewrite drop_app_length.
    destruct (PyStr.find_opt rest END_TEXT) as [i|] eqn:Hfind.
    + rewrite (batch_split _ _ i) by done.
      rewrite (streaming_reasoning_end _ _ _ rest _ _ _ i) by done.
      eexists _, _. split; [done|].
      cbn [fst snd _state _delta_accumulator app fragment reasoning_content
           content default].
      rewrite !default_or_none.
      repeat case_decide; rewrite ?app_nil_r; done.
    + rewrite batch_unterminated by done.
      eexists _, _. split; [done|].
      destruct (reasoning_step_conserves rest)
        as [(H1 & H2 & H3)|(H1 & H2 & H3)].
      * pose proof (proj1 (find_opt_None _ _) Hfind) as Hno.
        destruct (Hno (length (rc (run STATE_REASONING rest).2))).
        rewrite H3 at 1. by eexists _, _.
      * rewrite H1, H3. cbn [default].
        repeat case_decide; rewrite ?app_nil_r; done.
  - rewrite batch_no_start by done. eexists _, _. split; [done|].
    destruct (decide (s ∈ START_PREFIXES)) as [Hin|Hnot].
    + rewrite (streaming_initial_wait _ _ _ s) by done.
      cbn [fst snd _state _delta_accumulator app fragment default].
      by repeat case_decide.
    + rewrite (streaming_initial_output _ _ _ s) by done.
      cbn [fst snd _state _delta_accumulator app fragment reasoning_content
           content default].
      rewrite default_or_none.
      repeat case_decide; rewrite ?app_nil_r; done.
Qed.

End Kimi3Sessions.

(** ** The three batch splitters against each other *)
Section BatchComparison.
Implicit Types s rest : str.

Lemma kimi_batch_no_start {Request} s (request : Request) :
  PyStr.startswith s tag_open = false →
  Kimi.extract_reasoning_content s request = Return (None, Some s).
Proof.
  intros Hsw. unfold Kimi.extract_reasoning_content, Kimi.start_token.
  by rewrite Hsw.
Qed.

Lemma kimi_batch_unterminated {Request} rest (request : Request) :
  PyStr.find_opt rest tag_close = None →
  Kimi.extract_reasoning_content (tag_open ++ rest) request
  = Return (Some rest, None).
Proof.
  intros Hfind.
  unfold Kimi.extract_reasoning_content, Kimi.start_token, Kimi.end_token.
  rewrite startswith_app. cbn [negb].
  rewrite slice_from_nat, drop_app_length.
  unfold PyStr.contains. by rewrite Hfind.
Qed.

Lemma kimi_batch_split {Request} rest (request : Request) i :
  PyStr.find_opt rest tag_close = Some i →
  Kimi.extract_reasoning_content (tag_open ++ rest) request
  = Return (Some (take i rest),
            PyStr.or_none (drop (i + length tag_close) rest)).
Proof.
  intros Hfind.
  unfold Kimi.extract_reasoning_content, Kimi.start_token, Kimi.end_token.
  rewrite startswith_app. cbn [negb].
  rewrite slice_from_nat, drop_app_length.
  unfold PyStr.contains, PyStr.partition. rewrite Hfind.
  by cbn [negb tag_close py_bind].
Qed.

(** X6: kimi against kimi3.  The two prefix-policy batch calls return
    the same result on every input except those that begin with the
    start tag immediately followed by the end tag, where kimi returns the
    empty string as reasoning and kimi3 returns None. *)
Theorem kimi_and_kimi3_batch_differ {Request} s (request : Request) :
  Kimi.extract_reasoning_content s request
    ≠ Kimi3.extract_reasoning_content s request
  ↔ ∃ rest, s = tag_open ++ tag_close ++ rest.
Proof.
  destruct (PyStr.startswith s tag_open) eqn:Hsw.
  - pose proof Hsw as [rest ->]%startswith_prefix.
    destruct (PyStr.find_opt rest tag_close) as [i|] eqn:Hfind.
    + rewrite (kimi_batch_split _ _ i), (batch_split _ _ i) by done.
      apply find_opt_first in Hfind as [Hocc Hmin].
      destruct i as [|i].
      * split.
        -- intros _. destruct Hocc as (l & r & -> & Hl).
           apply nil_length_inv in Hl as ->. by exists r.
        -- intros _. by cbn.
      * pose proof (occurs_at_bound _ _ _ Hocc) as Hb.
        destruct rest as [|x rest]; [simpl in Hb; lia|].
        split; [by cbn|].
        intros [rest' Heq]. apply app_inv_head in Heq.
        destruct (Hmin 0); [lia|]. rewrite Heq. by exists [], rest'.
    + rewrite kimi_batch_unterminated, batch_unterminated by done.
      split; [done|].
      intros [rest' Heq]. apply app_inv_head in Heq.
      rewrite find_opt_None in Hfind. destruct (Hfind 0).
      rewrite Heq. by exists [], rest'.
  - rewrite kimi_batch_no_start, batch_no_start by done.
    split; [done|].
    intros [rest ->]. rewrite startswith_app in Hsw. discriminate.
Qed.

(** X7: kimi against kimi2 on inputs that begin with the start tag.
    With an end tag after it, the two batch calls return the same
    result.  Without one, kimi returns all that follows the start tag as
    reasoning, while kimi2 returns the whole input, start tag included,
    as content. *)
Theorem kimi_and_kimi2_batch_after_start {Tokenizer Request}
    (truth : Tokenizer → bool) super_init tok (self : Kimi2.parser Tokenizer)
    rest (request : Request) :
  Kimi2.__init__ truth super_init tok = Return self →
  ((∃ i, occurs_at tag_close rest i) →
   Kimi2.extract_reasoning_content self (tag_open ++ rest) request
   = Kimi.extract_reasoning_content (tag_open ++ rest) request) ∧
  ((∀ i, ¬ occurs_at tag_close rest i) →
   Kimi.extract_reasoning_content (tag_open ++ rest) request
   = Return (Some rest, None) ∧
   Kimi2.extract_reasoning_content self (tag_open ++ rest) request
   = Return (None, Some (tag_open ++ rest))).
Proof.
  intros Hinit%init_regex. split.
  - intros [j Hj].
    destruct (PyStr.find_opt rest tag_close) as [i|] eqn:Hfind.
    2: { rewrite find_opt_None in Hfind. by destruct (Hfind j). }
    rewrite (kimi_batch_split _ _ i) by done.
    apply find_opt_first in Hfind as Hfirst.
    pose proof (occurs_at_split _ _ _ (proj1 Hfirst)) as Hsplit.
    rewrite Hsplit at 1.
    apply extract_match. rewrite Hinit.
    apply (findall_one _
             (tag_open ++ take i rest ++ tag_close ++
              drop (i + length tag_close) rest)); [|done].
    apply (search_first_pair [] (take i rest)
             (drop (i + length tag_close) rest)).
    + cbn [app length]. apply find_opt_first.
      rewrite find_opt_unfold. by rewrite startswith_app.
    + rewrite <- Hsplit.
      pose proof (occurs_at_bound _ _ _ (proj1 Hfirst)) as Hb.
      by rewrite length_take_le by lia.
  - intros Hno. split.
    + apply kimi_batch_unterminated. by apply find_opt_None.
    + apply extract_no_match. rewrite Hinit.
      apply findall_none, search_no_pair.
      intros (pre & mid & post & Heq).
      apply (Hno (length pre + length mid)).
      apply (occurs_at_app_shift _ tag_open).
      rewrite Heq. exists (pre ++ tag_open ++ mid), post.
      rewrite <- !app_assoc. split; [done|].
      rewrite !length_app. lia.
Qed.

Lemma kimi_and_kimi2_batch_after_start_witness :
  Kimi2.extract_reasoning_content
    {| Kimi2.model_tokenizer := Some ();
       Kimi2.start_token := tag_open;
       Kimi2.end_token := tag_close;
       Kimi2.reasoning_regex :=
         {| Kimi2.nodes :=
              [Kimi2.Literal tag_open; Kimi2.GroupAnyLazy;
               Kimi2.Literal tag_close; Kimi2.GroupAnyGreedy];
            Kimi2.dotall := true |} |}
    (tag_open ++ [97%N] ++ tag_close ++ [98%N]) ()
  = Kimi.extract_reasoning_content
      (tag_open ++ [97%N] ++ tag_close ++ [98%N]) ().
Proof.
  refine (proj1 (kimi_and_kimi2_batch_after_start (fun _ : () => true)
                   Return (Some ()) _ ([97%N] ++ tag_close ++ [98%N]) ()
                   eq_refl) _).
  exists 1. by exists [97%N], [98%N].
Defined.

(** A match of the pattern shows a start tag followed later by an end
    tag. *)
Lemma search_Some_pair s from gs rest :
  Kimi2.search
    {| Kimi2.nodes := [Kimi2.Literal tag_open; Kimi2.GroupAnyLazy;
                       Kimi2.Literal tag_close; Kimi2.GroupAnyGreedy];
       Kimi2.dotall := true |} s = Some (from, gs, rest) →
  ∃ pre mid post, s = pre ++ tag_open ++ mid ++ tag_close ++ post.
Proof.
  induction s as [|c s IH]; rewrite search_unfold; cbn [Kimi2.dotall];
    rewrite match_here_pattern.
  - done.
  - destruct (PyStr.startswith (c :: s) tag_open) eqn:Hsw.
    + destruct (PyStr.find_opt _ tag_close) as [i|] eqn:Hfind.
      * intros _. apply startswith_prefix in Hsw as [k Hk].
        rewrite Hk, drop_app_length in Hfind.
        apply find_opt_first in Hfind as [Hocc%occurs_at_split _].
        exists [], (take i k), (drop (i + length tag_close) k).
        by rewrite Hk, <- Hocc.
      * intros (pre & mid & post & ->)%IH. by exists (c :: pre), mid, post.
    + intros (pre & mid & post & ->)%IH. by exists (c :: pre), mid, post.
Qed.

(** X15: the pattern matches at most once.  For every constructed
    kimi2 parser, [findall] on its pattern returns no match when the
    input has no start tag followed later by an end tag, and otherwise
    exactly one: the text between the first start tag and the first end
    tag after it, and all the text after that end tag, further tags
    included. *)
Theorem kimi2_regex_matches_at_most_once {Tokenizer}
    (truth : Tokenizer → bool) super_init tok (self : Kimi2.parser Tokenizer)
    s :
  Kimi2.__init__ truth super_init tok = Return self →
  (Kimi2.findall (Kimi2.reasoning_regex self) s = [] ∧
   ¬ (∃ pre mid post, s = pre ++ tag_open ++ mid ++ tag_close ++ post)) ∨
  (∃ pre mid post,
     s = pre ++ tag_open ++ mid ++ tag_close ++ post ∧
     first_at tag_open s (length pre) ∧
     first_at tag_close (mid ++ tag_close ++ post) (length mid) ∧
     Kimi2.findall (Kimi2.reasoning_regex self) s = [[mid; post]]).
Proof.
  intros Hinit%init_regex. rewrite Hinit.
  destruct (Kimi2.search
              {| Kimi2.nodes := [Kimi2.Literal tag_open; Kimi2.GroupAnyLazy;
                                 Kimi2.Literal tag_close; Kimi2.GroupAnyGreedy];
                 Kimi2.dotall := true |} s)
    as [[[from gs] rest]|] eqn:Hsearch.
  - right. apply search_Some_pair in Hsearch as Hpair.
    apply pair_first in Hpair as (pre & mid & post & -> & Hs & He).
    exists pre, mid, post. split; [done|]. split; [done|]. split; [done|].
    apply (findall_one _ (tag_open ++ mid ++ tag_close ++ post)); [|done].
    by apply search_first_pair.
  - left. split; [by apply findall_none | by apply search_None_no_pair].
Qed.

Lemma kimi2_regex_matches_at_most_once_witness :
  (Kimi2.findall
     {| Kimi2.nodes := [Kimi2.Literal tag_open; Kimi2.GroupAnyLazy;
                        Kimi2.Literal tag_close; Kimi2.GroupAnyGreedy];
        Kimi2.dotall := true |}
     (tag_open ++ tag_close ++ tag_open ++ tag_close) = [] ∧
   ¬ (∃ pre mid post,
        tag_open ++ tag_close ++ tag_open ++ tag_close
        = pre ++ tag_open ++ mid ++ tag_close ++ post)) ∨
  (∃ pre mid post,
     tag_open ++ tag_close ++ tag_open ++ tag_close
       = pre ++ tag_open ++ mid ++ tag_close ++ post ∧
     first_at tag_open (tag_open ++ tag_close ++ tag_open ++ tag_close)
       (length pre) ∧
     first_at tag_close (mid ++ tag_close ++ post) (length mid) ∧
     Kimi2.findall
       {| Kimi2.nodes := [Kimi2.Literal tag_open; Kimi2.GroupAnyLazy;
                          Kimi2.Literal tag_close; Kimi2.GroupAnyGreedy];
          Kimi2.dotall := true |}
       (tag_open ++ tag_close ++ tag_open ++ tag_close) = [[mid; post]]).
Proof.
  exact (kimi2_regex_matches_at_most_once (fun _ : () => true) Return
           (Some ())
           {| Kimi2.model_tokenizer := Some ();
              Kimi2.start_token := tag_open;
              Kimi2.end_token := tag_close;
              Kimi2.reasoning_regex :=
                {| Kimi2.nodes :=
                     [Kimi2.Literal tag_open; Kimi2.GroupAnyLazy;
                      Kimi2.Literal tag_close; Kimi2.GroupAnyGreedy];
                   Kimi2.dotall := true |} |}
           (tag_open ++ tag_close ++ tag_open ++ tag_close) eq_refl).
Defined.

End BatchComparison.

(** ** The stateless streaming call of kimi and kimi2 *)
Section KimiStreaming.
Implicit Types prev cur delta : str.

Lemma contains_true sub s :
  PyStr.contains sub s = true ↔ ∃ i, occurs_at sub s i.
Proof.
  unfold PyStr.contains.
  destruct (PyStr.find_opt s sub) as [i|] eqn:Hfind; split; try done.
  - intros _. exists i. by apply find_opt_first in Hfind as [? _].
  - intros [i Hi]. rewrite find_opt_None in Hfind. by destruct (Hfind i).
Qed.

Lemma occurs_at_middle sub u v w i :
  occurs_at sub v i → occurs_at sub (u ++ v ++ w) (length u + i).
Proof. intros H. by apply occurs_at_app_shift, occurs_at_app_r. Qed.

Lemma slice_index_nat (s : str) n :
  PyStr.slice_index s (Z.of_nat n) = n `min` length s.
Proof.
  unfold PyStr.slice_index.
  destruct (Z.ltb_spec (Z.of_nat n) 0) as [?|_]; lia.
Qed.

Lemma slice_between (s : str) a e :
  a ≤ length s → e ≤ length s →
  PyStr.slice s (Z.of_nat a) (Z.of_nat e) = take (e - a) (drop a s).
Proof.
  intros Ha He. unfold PyStr.slice. rewrite !slice_index_nat.
  by rewrite !Nat.min_l by done.
Qed.

(** X8: one call of kimi's streaming.  Every call returns a
    DeltaMessage, never None.  When the delta holds an end tag, it is
    cut at its first end tag, at offset [e]: the text after that end tag
    is the content, None when it is empty; the reasoning is all the text
    before the end tag when a start tag was delivered before or the
    delta holds none, and otherwise, with the delta's first start tag at
    offset [a], the text from the end of that start tag up to the end
    tag, which is empty when the end tag comes first (the text before
    the end tag is then dropped).  When the delta holds no end tag it is
    returned whole: as content when an end tag was delivered before
    and a start tag was delivered before or the delta holds none; as
    reasoning when no end tag was delivered before, or when the delta
    holds the first start tag. *)
Theorem kimi_streaming_call prev cur delta i1 i2 i3 :
  let out :=
    Kimi.extract_reasoning_content_streaming prev cur delta i1 i2 i3 in
  let after e :=
    match drop (e + length tag_close) delta with
    | [] => None
    | c :: cs => Some (c :: cs)
    end in
  is_Some out ∧
  (∀ e, first_at tag_close delta e →
        (∃ i, occurs_at tag_open prev i) ∨
        (∀ i, ¬ occurs_at tag_open delta i) →
        out = Some {| reasoning_content := Some (take e delta);
                      content := after e |}) ∧
  (∀ e a, first_at tag_close delta e →
          (∀ i, ¬ occurs_at tag_open prev i) →
          first_at tag_open delta a →
          out = Some {| reasoning_content :=
                          Some (take (e - (a + length tag_open))
                                  (drop (a + length tag_open) delta));
                        content := after e |}) ∧
  ((∀ i, ¬ occurs_at tag_close delta i) →
   (∃ i, occurs_at tag_close prev i) →
   (∃ i, occurs_at tag_open prev i) ∨ (∀ i, ¬ occurs_at tag_open delta i) →
   out = Some {| reasoning_content := None; content := Some delta |}) ∧
  ((∀ i, ¬ occurs_at tag_close delta i) →
   (∀ i, ¬ occurs_at tag_close prev i) ∨
   ((∀ i, ¬ occurs_at tag_open prev i) ∧ ∃ i, occurs_at tag_open delta i) →
   out = Some {| reasoning_content := Some delta; content := None |}).
Proof.
  cbv zeta.
  unfold Kimi.extract_reasoning_content_streaming,
    Kimi.start_token, Kimi.end_token.
  split; [|split; [|split; [|split]]].
  - by repeat match goal with
       | |- context [if ?b then _ else _] => destruct b
       end.
  - intros e He Hstart.
    pose proof (occurs_at_bound _ _ _ (proj1 He)) as Hb.
    rewrite (proj2 (contains_true tag_close delta)) by (eexists; apply He).
    apply find_opt_first in He. rewrite (find_Some _ _ _ He).
    rewrite <- Nat2Z.inj_add, slice_from_nat, slice_to_nat.
    assert (Hor : ∀ c : str, PyStr.or_none c =
                    match c with [] => None | x :: xs => Some (x :: xs) end)
      by (by intros []).
    rewrite Hor.
    destruct (PyStr.contains tag_open prev) eqn:Hp; [done|].
    destruct Hstart as [Hsp|Hnd].
    + apply contains_true in Hsp. congruence.
    + by rewrite (proj2 (contains_false tag_open delta) Hnd).
  - intros e a He Hnp Ha.
    pose proof (occurs_at_bound _ _ _ (proj1 He)) as Hb.
    pose proof (occurs_at_bound _ _ _ (proj1 Ha)) as Hba.
    rewrite (proj2 (contains_false tag_open prev) Hnp).
    rewrite (proj2 (contains_true tag_open delta)) by (eexists; apply Ha).
    rewrite (proj2 (contains_true tag_close delta)) by (eexists; apply He).
    apply find_opt_first in He, Ha.
    rewrite (find_Some _ _ _ He), (find_Some _ _ _ Ha).
    rewrite <- !Nat2Z.inj_add, slice_from_nat, slice_between by lia.
    by destruct (drop (e + length tag_close) delta).
  - intros Hnd Hep Hstart.
    rewrite (proj2 (contains_false tag_close delta) Hnd).
    rewrite (proj2 (contains_true tag_close prev) Hep).
    destruct (PyStr.contains tag_open prev) eqn:Hp; [done|].
    destruct Hstart as [Hsp|Hnsd].
    + apply contains_true in Hsp. congruence.
    + by rewrite (proj2 (contains_false tag_open delta) Hnsd).
  - intros Hnd Hcase.
    rewrite (proj2 (contains_false tag_close delta) Hnd).
    destruct Hcase as [Hnp|[Hnsp Hsd]].
    + rewrite (proj2 (contains_false tag_close prev) Hnp).
      by destruct (PyStr.contains tag_open prev),
        (PyStr.contains tag_open delta).
    + rewrite (proj2 (contains_false tag_open prev) Hnsp).
      by rewrite (proj2 (contains_true tag_open delta) Hsd).
Qed.

Lemma kimi_streaming_call_witness :
  (* the end tag before the start tag in one delta: 'x' is dropped *)
  Kimi.extract_reasoning_content_streaming [] []
    ([120%N] ++ tag_close ++ [121%N] ++ tag_open ++ [122%N]) [] [] []
  = Some {| reasoning_content := Some [];
            content := Some ([121%N] ++ tag_open ++ [122%N]) |} ∧
  (* the start tag delivered before: text up to the end tag, and the rest *)
  Kimi.extract_reasoning_content_streaming tag_open []
    ([97%N] ++ tag_close ++ [98%N]) [] [] []
  = Some {| reasoning_content := Some [97%N]; content := Some [98%N] |} ∧
  (* nothing after the end tag *)
  Kimi.extract_reasoning_content_streaming tag_open []
    ([97%N] ++ tag_close) [] [] []
  = Some {| reasoning_content := Some [97%N]; content := None |} ∧
  (* both tags delivered before *)
  Kimi.extract_reasoning_content_streaming
    (tag_open ++ [97%N] ++ tag_close) [] [98%N] [] [] []
  = Some {| reasoning_content := None; content := Some [98%N] |}.
Proof.
  split; [|split; [|split]].
  - destruct (kimi_streaming_call [] []
                ([120%N] ++ tag_close ++ [121%N] ++ tag_open ++ [122%N])
                [] [] []) as (_ & _ & H & _).
    apply (H 1 10).
    + apply find_opt_first. reflexivity.
    + apply find_opt_None. reflexivity.
    + apply find_opt_first. reflexivity.
  - destruct (kimi_streaming_call tag_open []
                ([97%N] ++ tag_close ++ [98%N]) [] [] []) as (_ & H & _).
    apply (H 1).
    + apply find_opt_first. reflexivity.
    + left. exists 0. by exists [], [].
  - destruct (kimi_streaming_call tag_open []
                ([97%N] ++ tag_close) [] [] []) as (_ & H & _).
    apply (H 1).
    + apply find_opt_first. reflexivity.
    + left. exists 0. by exists [], [].
  - destruct (kimi_streaming_call (tag_open ++ [97%N] ++ tag_close) []
                [98%N] [] [] []) as (_ & _ & _ & H & _).
    apply H.
    + apply find_opt_None. reflexivity.
    + exists 8. by exists (tag_open ++ [97%N]), [].
    + left. exists 0. by exists [], ([97%N] ++ tag_close).
Defined.

Lemma feed_kimi_cons prev delta chunks :
  feed_kimi prev (delta :: chunks) =
  Kimi.extract_reasoning_content_streaming
    prev (prev ++ delta) delta [] [] []
  :: feed_kimi (prev ++ delta) chunks.
Proof. done. Qed.

Lemma emitted_all_reasoning (chunks : list str) :
  emitted reasoning_content
    ((fun d => Some {| reasoning_content := Some d; content := None |})
     <$> chunks) = concat chunks ∧
  emitted content
    ((fun d => Some {| reasoning_content := Some d; content := None |})
     <$> chunks) = [].
Proof.
  induction chunks as [|d cs [IH1 IH2]]; [done|].
  rewrite fmap_cons, !emitted_cons, IH1, IH2. done.
Qed.

Lemma emitted_all_content (chunks : list str) :
  emitted reasoning_content
    ((fun d => Some {| reasoning_content := None; content := Some d |})
     <$> chunks) = [] ∧
  emitted content
    ((fun d => Some {| reasoning_content := None; content := Some d |})
     <$> chunks) = concat chunks.
Proof.
  induction chunks as [|d cs [IH1 IH2]]; [done|].
  rewrite fmap_cons, !emitted_cons, IH1, IH2. done.
Qed.

(** While the text holds no end tag, each delta comes back as
    reasoning. *)
Lemma feed_kimi_no_end prev (chunks : list str) :
  (∀ i, ¬ occurs_at tag_close (prev ++ concat chunks) i) →
  feed_kimi prev chunks =
    (fun d => Some {| reasoning_content := Some d; content := None |})
    <$> chunks.
Proof.
  revert prev. induction chunks as [|d cs IH]; intros prev Hno.
  - done.
  - simpl concat in Hno.
    assert (Hd : PyStr.contains tag_close d = false).
    { apply contains_false. intros i Hi.
      apply (Hno (length prev + i)). by apply occurs_at_middle. }
    assert (Hp : PyStr.contains tag_close prev = false).
    { apply contains_false. intros i Hi.
      apply (Hno i). by apply occurs_at_app_r. }
    rewrite feed_kimi_cons, IH by (by rewrite <- app_assoc).
    unfold Kimi.extract_reasoning_content_streaming, Kimi.end_token.
    rewrite Hd, Hp.
    by destruct (PyStr.contains Kimi.start_token prev),
      (PyStr.contains Kimi.start_token d).
Qed.

(** Once the text holds both tags, each delta without an end tag comes
    back as content. *)
Lemma feed_kimi_after_end prev (chunks : list str) :
  (∃ i, occurs_at tag_open prev i) →
  (∃ i, occurs_at tag_close prev i) →
  Forall (fun d => ∀ i, ¬ occurs_at tag_close d i) chunks →
  feed_kimi prev chunks =
    (fun d => Some {| reasoning_content := None; content := Some d |})
    <$> chunks.
Proof.
  revert prev. induction chunks as [|d cs IH]; intros prev Hs He Hall.
  - done.
  - apply Forall_cons in Hall as [Hd Hall].
    rewrite feed_kimi_cons, IH; [|..|done].
    + unfold Kimi.extract_reasoning_content_streaming,
        Kimi.start_token, Kimi.end_token.
      rewrite (proj2 (contains_true _ _) Hs), (proj2 (contains_true _ _) He).
      by rewrite (proj2 (contains_false _ _) Hd).
    + destruct Hs as [i Hi]. exists i. by apply occurs_at_app_r.
    + destruct He as [i Hi]. exists i. by apply occurs_at_app_r.
Qed.

(** X9: without an end tag everything is reasoning.  As long as the text
    delivered holds no end tag, kimi's streaming returns every delta
    whole as reasoning: plain text with no tag at all, and the start tag
    itself when it arrives. *)
Theorem kimi_streaming_without_end_tag prev (chunks : list str) :
  (∀ i, ¬ occurs_at tag_close (prev ++ concat chunks) i) →
  feed_kimi prev chunks =
    (fun d => Some {| reasoning_content := Some d; content := None |})
    <$> chunks ∧
  emitted reasoning_content (feed_kimi prev chunks) = concat chunks ∧
  emitted content (feed_kimi prev chunks) = [].
Proof.
  intros Hno. rewrite feed_kimi_no_end by done.
  split; [done|]. apply emitted_all_reasoning.
Qed.

Lemma kimi_streaming_without_end_tag_witness :
  emitted reasoning_content (feed_kimi [] [[120%N]; tag_open; [121%N]])
    = [120%N] ++ tag_open ++ [121%N].
Proof.
  refine (proj1 (proj2 (kimi_streaming_without_end_tag []
                          [[120%N]; tag_open; [121%N]] _))).
  apply find_opt_None. reflexivity.
Defined.

(** X10: streaming against batch on text without the start tag in
    front.  On a text that does not begin with the start tag and holds
    no end tag, however it is cut into chunks, kimi's streaming returns
    all of it as reasoning, while kimi's batch call returns all of it as
    content. *)
Theorem kimi_streaming_against_batch {Request} (chunks : list str)
    (request : Request) :
  PyStr.startswith (concat chunks) tag_open = false →
  (∀ i, ¬ occurs_at tag_close (concat chunks) i) →
  emitted reasoning_content (feed_kimi [] chunks) = concat chunks ∧
  emitted content (feed_kimi [] chunks) = [] ∧
  Kimi.extract_reasoning_content (concat chunks) request
    = Return (None, Some (concat chunks)).
Proof.
  intros Hsw Hno. rewrite feed_kimi_no_end by done.
  destruct (emitted_all_reasoning chunks) as [H2 H3].
  split; [done|]. split; [done|]. by apply kimi_batch_no_start.
Qed.

Lemma kimi_streaming_against_batch_witness :
  emitted reasoning_content (feed_kimi [] [[104%N]; [105%N]])
    = [104%N; 105%N] ∧
  emitted content (feed_kimi [] [[104%N]; [105%N]]) = [] ∧
  Kimi.extract_reasoning_content [104%N; 105%N] ()
    = Return (None, Some [104%N; 105%N]).
Proof.
  apply (kimi_streaming_against_batch [[104%N]; [105%N]] ()).
  - reflexivity.
  - apply find_opt_None. reflexivity.
Defined.

(** X11: after the reasoning span everything is content.  Once the text
    delivered holds both tags, kimi's streaming returns every later
    delta that holds no end tag whole as content, start tags
    included. *)
Theorem kimi_streaming_after_end_tag prev (chunks : list str) :
  (∃ i, occurs_at tag_open prev i) →
  (∃ i, occurs_at tag_close prev i) →
  Forall (fun d => ∀ i, ¬ occurs_at tag_close d i) chunks →
  feed_kimi prev chunks =
    (fun d => Some {| reasoning_content := None; content := Some d |})
    <$> chunks ∧
  emitted reasoning_content (feed_kimi prev chunks) = [] ∧
  emitted content (feed_kimi prev chunks) = concat chunks.
Proof.
  intros Hs He Hall. rewrite feed_kimi_after_end by done.
  split; [done|]. apply emitted_all_content.
Qed.

Lemma kimi_streaming_after_end_tag_witness :
  emitted content
    (feed_kimi (tag_open ++ [97%N] ++ tag_close) [[98%N]; tag_open; [99%N]])
  = [98%N] ++ tag_open ++ [99%N].
Proof.
  refine (proj2 (proj2 (kimi_streaming_after_end_tag
                          (tag_open ++ [97%N] ++ tag_close)
                          [[98%N]; tag_open; [99%N]] _ _ _))).
  - exists 0. by exists [], ([97%N] ++ tag_close).
  - exists 8. by exists (tag_open ++ [97%N]), [].
  - repeat constructor; apply find_opt_None; reflexivity.
Defined.

(** X12: an end tag cut in two is not recognised.  While a reasoning
    span is open, an end tag that arrives split over two deltas is
    returned as reasoning, its first part with the first delta and its
    second part with the second; only the deltas after it are returned
    as content. *)
Theorem kimi_streaming_split_end_tag prev d1 d2 (more : list str) :
  (∃ i, occurs_at tag_open prev i) →
  (∀ i, ¬ occurs_at tag_close (prev ++ d1) i) →
  (∀ i, ¬ occurs_at tag_close d2 i) →
  (∃ i, occurs_at tag_close (prev ++ d1 ++ d2) i) →
  Forall (fun d => ∀ i, ¬ occurs_at tag_close d i) more →
  emitted reasoning_content (feed_kimi prev (d1 :: d2 :: more)) = d1 ++ d2 ∧
  emitted content (feed_kimi prev (d1 :: d2 :: more)) = concat more.
Proof.
  intros Hs Hno1 Hno2 He Hmore.
  assert (Hs1 : PyStr.contains tag_open (prev ++ d1) = true).
  { apply contains_true. destruct Hs as [i Hi]. exists i.
    by apply occurs_at_app_r. }
  assert (Hd1 : PyStr.contains tag_close d1 = false).
  { apply contains_false. intros i Hi. apply (Hno1 (length prev + i)).
    apply occurs_at_app_shift. done. }
  assert (Hp : PyStr.contains tag_close prev = false).
  { apply contains_false. intros i Hi. apply (Hno1 i).
    by apply occurs_at_app_r. }
  rewrite !feed_kimi_cons, !emitted_cons.
  rewrite feed_kimi_after_end; [| | |done].
  - destruct (emitted_all_content more) as [-> ->].
    unfold Kimi.extract_reasoning_content_streaming,
      Kimi.start_token, Kimi.end_token.
    rewrite (proj2 (contains_true _ _) Hs), Hs1, Hd1, Hp.
    rewrite (proj2 (contains_false _ _) Hno2).
    rewrite (proj2 (contains_false _ _) Hno1).
    cbn [fragment reasoning_content content default].
    by rewrite !app_nil_r.
  - destruct Hs as [i Hi]. exists i. rewrite <- app_assoc.
    by apply occurs_at_app_r.
  - by rewrite <- app_assoc.
Qed.

Lemma kimi_streaming_split_end_tag_witness :
  emitted reasoning_content
    (feed_kimi tag_open [[97%N] ++ take 3 tag_close; drop 3 tag_close; [98%N]])
    = [97%N] ++ tag_close ∧
  emitted content
    (feed_kimi tag_open [[97%N] ++ take 3 tag_close; drop 3 tag_close; [98%N]])
    = [98%N].
Proof.
  apply (kimi_streaming_split_end_tag tag_open
           ([97%N] ++ take 3 tag_close) (drop 3 tag_close) [[98%N]]).
  - exists 0. by exists [], [].
  - apply find_opt_None. reflexivity.
  - apply find_opt_None. reflexivity.
  - exists 8. by exists (tag_open ++ [97%N]), [].
  - repeat constructor; apply find_opt_None; reflexivity.
Defined.

(** X13: kimi2 streams as kimi does.  For every constructed kimi2
    parser, its streaming call returns what kimi's streaming call
    returns on the same arguments. *)
Theorem kimi2_streaming_is_kimi_streaming {Tokenizer}
    (truth : Tokenizer → bool) super_init tok (self : Kimi2.parser Tokenizer)
    prev cur delta i1 i2 i3 :
  Kimi2.__init__ truth super_init tok = Return self →
  Kimi2.extract_reasoning_content_streaming self prev cur delta i1 i2 i3
  = Kimi.extract_reasoning_content_streaming prev cur delta i1 i2 i3.
Proof.
  unfold Kimi2.__init__, py_bind. destruct (super_init tok) as [mt|]; [|done].
  destruct (negb (py_truth truth mt)); [done|]. by intros [= <-].
Qed.

Lemma kimi2_streaming_is_kimi_streaming_witness :
  Kimi2.extract_reasoning_content_streaming
    {| Kimi2.model_tokenizer := Some ();
       Kimi2.start_token := tag_open;
       Kimi2.end_token := tag_close;
       Kimi2.reasoning_regex :=
         {| Kimi2.nodes :=
              [Kimi2.Literal tag_open; Kimi2.GroupAnyLazy;
               Kimi2.Literal tag_close; Kimi2.GroupAnyGreedy];
            Kimi2.dotall := true |} |}
    tag_open (tag_open ++ [97%N] ++ tag_close) ([97%N] ++ tag_close) [] [] []
  = Kimi.extract_reasoning_content_streaming
      tag_open (tag_open ++ [97%N] ++ tag_close) ([97%N] ++ tag_close)
      [] [] [].
Proof.
  exact (kimi2_streaming_is_kimi_streaming (fun _ : () => true) Return
           (Some ()) _ tag_open (tag_open ++ [97%N] ++ tag_close)
           ([97%N] ++ tag_close) [] [] [] eq_refl).
Defined.

(** X14: a whole response in one delta.  When nothing was delivered
    before and the delta holds its first start tag after [pre] and its
    first end tag after the reasoning [mid] that follows, kimi's
    streaming call returns [mid] as reasoning and the text after the end
    tag as content (None when empty), dropping [pre]: the result of
    kimi2's batch call on the same text. *)
Theorem kimi_single_delta_as_kimi2_batch {Tokenizer Request}
    (truth : Tokenizer → bool) super_init tok (self : Kimi2.parser Tokenizer)
    (request : Request) prev cur (pre mid post : str) i1 i2 i3 :
  Kimi2.__init__ truth super_init tok = Return self →
  (∀ i, ¬ occurs_at tag_open prev i) →
  first_at tag_open (pre ++ tag_open ++ mid ++ tag_close ++ post)
    (length pre) →
  first_at tag_close (pre ++ tag_open ++ mid ++ tag_close ++ post)
    (length pre + length tag_open + length mid) →
  Kimi.extract_reasoning_content_streaming prev cur
    (pre ++ tag_open ++ mid ++ tag_close ++ post) i1 i2 i3
  = Some {| reasoning_content := Some mid;
            content := PyStr.or_none post |} ∧
  Kimi2.extract_reasoning_content self
    (pre ++ tag_open ++ mid ++ tag_close ++ post) request
  = Return (Some mid, PyStr.or_none post).
Proof.
  intros Hinit%init_regex Hprev Hstart Hend.
  set (delta := pre ++ tag_open ++ mid ++ tag_close ++ post) in *.
  split.
  - unfold Kimi.extract_reasoning_content_streaming,
      Kimi.start_token, Kimi.end_token.
    rewrite (proj2 (contains_false _ _) Hprev).
    rewrite (proj2 (contains_true _ _)) by (eexists; apply Hstart).
    rewrite (proj2 (contains_true _ _)) by (eexists; apply Hend).
    apply find_opt_first in Hstart as Hfs. apply find_opt_first in Hend as Hfe.
    rewrite (find_Some _ _ _ Hfs), (find_Some _ _ _ Hfe).
    rewrite <- !Nat2Z.inj_add, slice_from_nat.
    unfold PyStr.slice. rewrite !slice_index_nat.
    assert (Hlen : length delta =
                   length pre + length tag_open + length mid +
                   length tag_close + length post).
    { unfold delta. rewrite !length_app. lia. }
    rewrite !Nat.min_l by lia.
    replace (length pre + length tag_open + length mid -
             (length pre + length tag_open)) with (length mid) by lia.
    do 3 f_equal.
    + unfold delta.
      rewrite (app_assoc pre tag_open), <- length_app, drop_app_length.
      by rewrite take_app_length.
    + unfold delta.
      replace (pre ++ tag_open ++ mid ++ tag_close ++ post)
        with ((pre ++ tag_open ++ mid ++ tag_close) ++ post)
        by (by rewrite <- !app_assoc).
      apply drop_app_length'. rewrite !length_app. lia.
  - apply extract_match. rewrite Hinit.
    apply (findall_one _ (tag_open ++ mid ++ tag_close ++ post)); [|done].
    apply search_first_pair; [done|].
    destruct Hend as [_ Hmin]. split; [by exists mid, post|].
    intros j Hj Hocc.
    apply (Hmin (length (pre ++ tag_open) + j));
      [rewrite length_app; lia|].
    unfold delta. rewrite (app_assoc pre tag_open).
    by apply occurs_at_app_shift.
Qed.

Lemma kimi_single_delta_as_kimi2_batch_witness :
  Kimi.extract_reasoning_content_streaming [] []
    ([120%N] ++ tag_open ++ [97%N] ++ tag_close ++ [98%N]) [] [] []
  = Some {| reasoning_content := Some [97%N]; content := Some [98%N] |}.
Proof.
  refine (proj1 (kimi_single_delta_as_kimi2_batch (Request := ())
            (fun _ : () => true) Return (Some ()) _ () [] []
            [120%N] [97%N] [98%N] [] [] [] eq_refl _ _ _)).
  - apply find_opt_None. reflexivity.
  - apply find_opt_first. reflexivity.
  - apply find_opt_first. reflexivity.
Defined.

End KimiStreaming.
